(** * Linear reconstruction of TorchSWE: torchswe/kernels/cupy_reconstruction.pyx

    The module holds six elementwise kernels, written as C snippets that are
    generic in the element type [T], and the driver [reconstruct], which
    applies them to slices of the solver's arrays.

    The development follows that layout:
    - [Scalar] is the interface the C snippets need from [T]; it has two
      instances, IEEE binary64 ([float], what the solver runs on) and [xrat],
      the same special values (infinities, NaN) over unrounded rationals;
    - the kernels are written once over [Scalar];
    - arrays are index functions, a slice is an index shift, and
      [reconstruct] is the composition of its stages in source order. *)

From Stdlib Require Import ZArith QArith Qcanon Floats Lia Lra Lqa Bool.

Set Implicit Arguments.
Local Open Scope Z_scope.

(** ** The element type of the kernels *)

(** What the kernel bodies use of [T]: the literals [0.] (also written
    [0.0]), [1.0] and [2.0], the four arithmetic operators, the comparison
    [<], and [min] and [max].  The kernel bodies are device code, where the
    overloads of [min] and [max] for doubles call [fmin] and [fmax]: when
    one argument is NaN the other is returned.  They are fields of the
    class, so each instance states how it reads them.  The scalar arguments
    declared [float64] ([theta], [tol], [drytol]) are taken at the same
    type: the solver's arrays are float64. *)
Class Scalar (T : Type) : Type := {
  lit0 : T;
  lit1 : T;
  lit2 : T;
  add : T -> T -> T;
  sub : T -> T -> T;
  mul : T -> T -> T;
  div : T -> T -> T;
  ltb : T -> T -> bool;
  fmin : T -> T -> T;
  fmax : T -> T -> T
}.

Declare Scope scalar_scope.
Delimit Scope scalar_scope with S.
Infix "+" := add : scalar_scope.
Infix "-" := sub : scalar_scope.
Infix "*" := mul : scalar_scope.
Infix "/" := div : scalar_scope.
Infix "<?" := ltb : scalar_scope.

(** *** IEEE binary64 *)

Module F64.

(** The zero with its sign bit set. *)
Definition is_neg_zero (x : float) : bool :=
  match Prim2SF x with
  | S754_zero true => true
  | _ => false
  end.

(** [fmin]: a NaN argument is treated as missing; of two zeros of opposite
    sign the negative one is the smaller, as the device instruction has
    it. *)
Definition fmin (a b : float) : float :=
  if PrimFloat.is_nan a then b
  else if PrimFloat.is_nan b then a
  else if PrimFloat.ltb b a then b
  else if PrimFloat.ltb a b then a
  else if is_neg_zero b then b else a.

(** [fmax]: a NaN argument is treated as missing; of two zeros of opposite
    sign the positive one is the larger. *)
Definition fmax (a b : float) : float :=
  if PrimFloat.is_nan a then b
  else if PrimFloat.is_nan b then a
  else if PrimFloat.ltb a b then b
  else if PrimFloat.ltb b a then a
  else if is_neg_zero a then b else a.

(** Zero or a finite non-zero value: neither an infinity nor NaN. *)
Definition is_number (x : float) : bool :=
  match Prim2SF x with
  | S754_zero _ | S754_finite _ _ _ => true
  | _ => false
  end.

(** A zero of either sign. *)
Definition is_zero (x : float) : bool :=
  match Prim2SF x with
  | S754_zero _ => true
  | _ => false
  end.

End F64.

#[export] Instance float_Scalar : Scalar float := {|
  lit0 := 0%float;
  lit1 := 1%float;
  lit2 := 2%float;
  add := PrimFloat.add;
  sub := PrimFloat.sub;
  mul := PrimFloat.mul;
  div := PrimFloat.div;
  ltb := PrimFloat.ltb;
  fmin := F64.fmin;
  fmax := F64.fmax
|}.

(** *** Exact arithmetic with the IEEE special values

    [xrat] keeps the behaviour of the float operations at the singular
    points (division by zero, infinity minus infinity, comparisons and
    [fmin]/[fmax] with NaN) and drops rounding, overflow and the sign of
    zero: a finite value is a rational in canonical form, so equality of
    values is Leibniz equality. *)

Inductive xrat : Type :=
| Fin (q : Qc)
| PInf
| NInf
| NaN.

Module XR.

Definition neg (a : xrat) : xrat :=
  match a with
  | Fin q => Fin (- q)%Qc
  | PInf => NInf
  | NInf => PInf
  | NaN => NaN
  end.

Definition add (a b : xrat) : xrat :=
  match a, b with
  | NaN, _ | _, NaN => NaN
  | Fin p, Fin q => Fin (p + q)%Qc
  | PInf, NInf | NInf, PInf => NaN
  | PInf, _ | _, PInf => PInf
  | NInf, _ | _, NInf => NInf
  end.

Definition sub (a b : xrat) : xrat := add a (neg b).

(** The infinity whose sign is the sign of [q]; NaN for [q = 0]. *)
Definition signed_inf (q : Qc) : xrat :=
  match (q ?= 0)%Qc with
  | Gt => PInf
  | Lt => NInf
  | Eq => NaN
  end.

Definition mul (a b : xrat) : xrat :=
  match a, b with
  | NaN, _ | _, NaN => NaN
  | Fin p, Fin q => Fin (p * q)%Qc
  | Fin p, PInf | PInf, Fin p => signed_inf p
  | Fin p, NInf | NInf, Fin p => signed_inf (- p)%Qc
  | PInf, PInf | NInf, NInf => PInf
  | PInf, NInf | NInf, PInf => NInf
  end.

Definition is_neg (q : Qc) : bool :=
  match (q ?= 0)%Qc with Lt => true | _ => false end.

(** A finite non-zero value over zero is an infinity, zero over zero is NaN;
    the zero divisor counts as [+0], which is what [x - x] gives. *)
Definition div (a b : xrat) : xrat :=
  match a, b with
  | NaN, _ | _, NaN => NaN
  | Fin p, Fin q =>
      match (q ?= 0)%Qc with
      | Eq => signed_inf p
      | _ => Fin (p / q)%Qc
      end
  | Fin _, PInf | Fin _, NInf => Fin 0
  | PInf, Fin q => if is_neg q then NInf else PInf
  | NInf, Fin q => if is_neg q then PInf else NInf
  | PInf, PInf | PInf, NInf | NInf, PInf | NInf, NInf => NaN
  end.

(** [a < b]; false as soon as one side is NaN. *)
Definition ltb (a b : xrat) : bool :=
  match a, b with
  | Fin p, Fin q => match (p ?= q)%Qc with Lt => true | _ => false end
  | NInf, Fin _ | NInf, PInf | Fin _, PInf => true
  | _, _ => false
  end.

Definition fmin (a b : xrat) : xrat :=
  match a, b with
  | NaN, _ => b
  | _, NaN => a
  | _, _ => if ltb b a then b else a
  end.

Definition fmax (a b : xrat) : xrat :=
  match a, b with
  | NaN, _ => b
  | _, NaN => a
  | _, _ => if ltb a b then b else a
  end.

(** [a <= b]; false as soon as one side is NaN. *)
Definition leb (a b : xrat) : bool :=
  match a, b with
  | NaN, _ | _, NaN => false
  | _, _ => negb (ltb b a)
  end.

End XR.

#[export] Instance xrat_Scalar : Scalar xrat := {|
  lit0 := Fin 0;
  lit1 := Fin 1;
  lit2 := Fin (Q2Qc 2);
  add := XR.add;
  sub := XR.sub;
  mul := XR.mul;
  div := XR.div;
  ltb := XR.ltb;
  fmin := XR.fmin;
  fmax := XR.fmax
|}.

(** ** The elementwise kernels

    A kernel is run once per element.  An output parameter names an element
    of the output array; a body that does not assign it on every path leaves
    that element as it was, so such a parameter appears here as an argument
    carrying the element's previous value. *)

Section Kernels.

Context {T : Type} `{Scalar T}.
Local Open Scope scalar_scope.

Definition _minmod_slope_kernel (s1 s2 s3 theta : T) : T :=
  let denominator := s3 - s2 in
  let slp := (s2 - s1) / denominator in
  let slp := fmin (slp * theta) ((lit1 + slp) / lit2) in
  let slp := fmin slp theta in
  let slp := fmax slp lit0 in
  let slp := slp * denominator in
  slp / lit2.

Definition _fix_rounding_err_kernel (depth tol : T) (ans : T) : T :=
  if depth <? tol then lit0 else ans.

Definition _recnstrt_face_vel_kernel (depth hu hv drytol : T) : T * T :=
  if depth <? drytol then (lit0, lit0) else (hu / depth, hv / depth).

Definition _recnstrt_face_conservatives (h u v b : T) : T * T * T :=
  (h + b, h * u, h * v).

Definition _correct_neg_depth_internal (hc hl hr : T) (nhl nhr : T)
  : T * T :=
  if hl <? lit0 then (lit0, hc * lit2)
  else if hr <? lit0 then (hc * lit2, lit0)
  else (nhl, nhr).

Definition _correct_neg_depth_edge (h : T) (nh : T) : T :=
  if h <? lit0 then lit0 else nh.

End Kernels.

(** ** Arrays, slices and the solver state *)

(** The four face sides, under the names [reconstruct] gives them:
    [xm] is [states.face.x.minus], [xp] is [states.face.x.plus], [ym] and
    [yp] likewise along y. *)
Inductive side : Type := xm | xp | ym | yp.

Definition side_eqb (a b : side) : bool :=
  match a, b with
  | xm, xm | xp, xp | ym, ym | yp, yp => true
  | _, _ => false
  end.

Section Arrays.

Context {T : Type}.

(** A two-dimensional array: row, then column. *)
Definition array2 : Type := Z -> Z -> T.

(** A three-dimensional array: component, row, column. *)
Definition array3 : Type := Z -> array2.

(** [a[r:, c:]]: the slice that starts at row [r] and column [c].  The stop
    of a slice fixes its shape, not its elements. *)
Definition view (a : array2) (r c : Z) : array2 :=
  fun j i => a (r + j) (c + i).

(** [a[:, r:, c:]] *)
Definition view3 (a : array3) (r c : Z) : array3 :=
  fun k => view (a k) r c.

(** Assignment through [a[:, lo:hi]]: column [i] of [b] lands in column
    [lo + i] of [a], the columns outside [lo:hi] keep their value. *)
Definition set_cols (lo hi : Z) (b a : array2) : array2 :=
  fun j i => if (lo <=? i) && (i <? hi) then b j (i - lo) else a j i.

(** Assignment through [a[lo:hi, :]]. *)
Definition set_rows (lo hi : Z) (b a : array2) : array2 :=
  fun j i => if (lo <=? j) && (j <? hi) then b (j - lo) i else a j i.

(** Assignment through [a[:, c]] (one column) and [a[r, :]] (one row). *)
Definition set_col (c : Z) (b : Z -> T) (a : array2) : array2 :=
  fun j i => if i =? c then b j else a j i.

Definition set_row (r : Z) (b : Z -> T) (a : array2) : array2 :=
  fun j i => if j =? r then b i else a j i.

(** Assignment through [a[k]]. *)
Definition set_comp (k : Z) (b : array2) (a : array3) : array3 :=
  fun k' => if k' =? k then b else a k'.

(** [states]: the ghost-cell count, the conservative array [Q] with its
    shape, the cell-centre depth [H], the conservative and non-conservative
    arrays of each face side ([fQ s xm] is [xmQ], [fU s yp] is [ypU]), and
    [U], which the docstring of [reconstruct] names. *)
Record States : Type := {
  ngh : Z;
  Q_shape : Z * Z * Z;
  Q : array3;
  U : array3;
  H : array2;
  fQ : side -> array3;
  fU : side -> array3
}.

Definition set_H (h : array2) (s : States) : States :=
  {| ngh := ngh s; Q_shape := Q_shape s; Q := Q s; U := U s;
     H := h; fQ := fQ s; fU := fU s |}.

Definition set_fQ (d : side) (a : array3) (s : States) : States :=
  {| ngh := ngh s; Q_shape := Q_shape s; Q := Q s; U := U s; H := H s;
     fQ := fun d' => if side_eqb d' d then a else fQ s d';
     fU := fU s |}.

Definition set_fU (d : side) (a : array3) (s : States) : States :=
  {| ngh := ngh s; Q_shape := Q_shape s; Q := Q s; U := U s; H := H s;
     fQ := fQ s;
     fU := fun d' => if side_eqb d' d then a else fU s d' |}.

(** Assignment through the depth [dU[0]] of a face side; [f] receives the
    component as it is. *)
Definition set_depth (d : side) (f : array2 -> array2) (s : States)
  : States :=
  set_fU d (set_comp 0 (f (fU s d 0)) (fU s d)) s.

(** [runtime.topo] *)
Record Topo : Type := {
  centers : array2;
  xfcenters : array2;
  yfcenters : array2
}.

Record Runtime : Type := {
  topo : Topo;
  tol : T
}.

(** [config.params] *)
Record Params : Type := {
  theta : T;
  drytol : T
}.

Record Config : Type := {
  params : Params
}.

(** [ny = Q.shape[1] - 2 * ngh], [nx = Q.shape[2] - 2 * ngh] *)
Definition ny (s : States) : Z := snd (fst (Q_shape s)) - 2 * ngh s.
Definition nx (s : States) : Z := snd (Q_shape s) - 2 * ngh s.
Definition xbg (s : States) : Z := ngh s.
Definition xed (s : States) : Z := nx s + ngh s.
Definition ybg (s : States) : Z := ngh s.
Definition yed (s : States) : Z := ny s + ngh s.

(** The inputs on which no slice start is negative and no extent is
    negative: at least two ghost cells, and a shape of [Q] that leaves room
    for them. *)
Definition well_shaped (s : States) : bool :=
  (2 <=? ngh s) && (0 <=? ny s) && (0 <=? nx s).

(** The topography sample that goes with a face side: [topo.xfcenters] for
    the x sides, [topo.yfcenters] for the y sides. *)
Definition ftopo (t : Topo) (d : side) : array2 :=
  match d with
  | xm | xp => xfcenters t
  | ym | yp => yfcenters t
  end.

End Arrays.

Arguments array2 : clear implicits.
Arguments array3 : clear implicits.
Arguments States : clear implicits.
Arguments Topo : clear implicits.
Arguments Runtime : clear implicits.
Arguments Params : clear implicits.
Arguments Config : clear implicits.

(** ** [reconstruct]

    The call is covered where it runs to the end: [Q] carries at least two
    ghost cells on each side ([well_shaped], so that no slice start is
    negative), and the face buffers and the topography have the shapes the
    slices require ([ny] by [nx + 1] per component in x, [ny + 1] by [nx] in
    y, [ny] by [nx] for [H] and [topo.centers]); on other shapes the array
    library raises.  Each stage below is one commented block of the source,
    in its order. *)

Section Reconstruct.

Context {T : Type} `{Scalar T}.
Local Open Scope scalar_scope.

(** [# get slopes] *)
Definition slpx (s : States T) (theta : T) : array3 T :=
  fun k j i =>
    _minmod_slope_kernel
      (view3 (Q s) (ybg s) (xbg s - 2) k j i)
      (view3 (Q s) (ybg s) (xbg s - 1) k j i)
      (view3 (Q s) (ybg s) (xbg s) k j i)
      theta.

Definition slpy (s : States T) (theta : T) : array3 T :=
  fun k j i =>
    _minmod_slope_kernel
      (view3 (Q s) (ybg s - 2) (xbg s) k j i)
      (view3 (Q s) (ybg s - 1) (xbg s) k j i)
      (view3 (Q s) (ybg s) (xbg s) k j i)
      theta.

(** [# get discontinuous conservatice quantities at cell faces] *)
Definition get_face_conservatives (theta : T) (s : States T) : States T :=
  let slpx := slpx s theta in
  let slpy := slpy s theta in
  let s := set_fQ xm
    (fun k j i => view3 (Q s) (ybg s) (xbg s - 1) k j i + slpx k j i) s in
  let s := set_fQ xp
    (fun k j i => view3 (Q s) (ybg s) (xbg s) k j i - view3 slpx 0 1 k j i)
    s in
  let s := set_fQ ym
    (fun k j i => view3 (Q s) (ybg s - 1) (xbg s) k j i + slpy k j i) s in
  let s := set_fQ yp
    (fun k j i => view3 (Q s) (ybg s) (xbg s) k j i - view3 slpy 1 0 k j i)
    s in
  s.

(** [# calculate depth at cell centers and faces] *)
Definition get_depths (topo : Topo T) (s : States T) : States T :=
  let s := set_H
    (fun j i => view (Q s 0) (ybg s) (xbg s) j i - centers topo j i) s in
  let s := set_depth xm
    (fun _ j i => fQ s xm 0 j i - xfcenters topo j i) s in
  let s := set_depth xp
    (fun _ j i => fQ s xp 0 j i - xfcenters topo j i) s in
  let s := set_depth ym
    (fun _ j i => fQ s ym 0 j i - yfcenters topo j i) s in
  let s := set_depth yp
    (fun _ j i => fQ s yp 0 j i - yfcenters topo j i) s in
  s.

(** [# fix negative depths in x direction]: cell [(j, i)] owns the plus side
    of face [i] and the minus side of face [i + 1]; then the two outermost
    columns. *)
Definition fix_neg_depths_x (s : States T) : States T :=
  let n := nx s in
  let hl := fU s xp 0 in
  let hr := view (fU s xm 0) 0 1 in
  let out := fun j i =>
    _correct_neg_depth_internal (H s j i) (hl j i) (hr j i) (hl j i) (hr j i)
  in
  let s := set_depth xp (set_cols 0 n (fun j i => fst (out j i))) s in
  let s := set_depth xm (set_cols 1 (n + 1) (fun j i => snd (out j i))) s in
  let s := set_depth xp
    (fun a => set_col n (fun j => _correct_neg_depth_edge (a j n) (a j n)) a)
    s in
  let s := set_depth xm
    (fun a => set_col 0 (fun j => _correct_neg_depth_edge (a j 0) (a j 0)) a)
    s in
  s.

(** The second block headed [# fix negative depths in x direction]: the same
    along y. *)
Definition fix_neg_depths_y (s : States T) : States T :=
  let n := ny s in
  let hl := fU s yp 0 in
  let hr := view (fU s ym 0) 1 0 in
  let out := fun j i =>
    _correct_neg_depth_internal (H s j i) (hl j i) (hr j i) (hl j i) (hr j i)
  in
  let s := set_depth yp (set_rows 0 n (fun j i => fst (out j i))) s in
  let s := set_depth ym (set_rows 1 (n + 1) (fun j i => snd (out j i))) s in
  let s := set_depth yp
    (fun a => set_row n (fun i => _correct_neg_depth_edge (a n i) (a n i)) a)
    s in
  let s := set_depth ym
    (fun a => set_row 0 (fun i => _correct_neg_depth_edge (a 0 i) (a 0 i)) a)
    s in
  s.

(** One call of [_fix_rounding_err_kernel], input and output [dU[0]]. *)
Definition fix_rounding (tol : T) (a : array2 T) : array2 T :=
  fun j i => _fix_rounding_err_kernel (a j i) tol (a j i).

(** [# fix rounding errors] *)
Definition fix_rounding_errors (tol : T) (s : States T) : States T :=
  let s := set_depth xm (fix_rounding tol) s in
  let s := set_depth xp (fix_rounding tol) s in
  let s := set_depth ym (fix_rounding tol) s in
  let s := set_depth yp (fix_rounding tol) s in
  s.

(** One call of [_recnstrt_face_vel_kernel]: reads [dU[0]], [dQ[1]] and
    [dQ[2]], writes [dU[1]] and [dU[2]]. *)
Definition face_velocity (d : side) (drytol : T) (s : States T)
  : States T :=
  let out := fun j i =>
    _recnstrt_face_vel_kernel
      (fU s d 0 j i) (fQ s d 1 j i) (fQ s d 2 j i) drytol in
  set_fU d
    (set_comp 2 (fun j i => snd (out j i))
       (set_comp 1 (fun j i => fst (out j i)) (fU s d))) s.

(** [# reconstruct velocity at cell faces] *)
Definition get_face_velocities (drytol : T) (s : States T) : States T :=
  let s := face_velocity xm drytol s in
  let s := face_velocity xp drytol s in
  let s := face_velocity ym drytol s in
  let s := face_velocity yp drytol s in
  s.

(** One call of [_recnstrt_face_conservatives]: reads the three components
    of [dU] and the face topography [b], writes the three components of
    [dQ]. *)
Definition face_conservative (d : side) (b : array2 T) (s : States T)
  : States T :=
  let out := fun j i =>
    _recnstrt_face_conservatives
      (fU s d 0 j i) (fU s d 1 j i) (fU s d 2 j i) (b j i) in
  set_fQ d
    (set_comp 2 (fun j i => snd (out j i))
       (set_comp 1 (fun j i => snd (fst (out j i)))
          (set_comp 0 (fun j i => fst (fst (out j i))) (fQ s d)))) s.

(** [# reconstruct conservative quantities at cell faces] *)
Definition recombine_face_conservatives (topo : Topo T) (s : States T)
  : States T :=
  let s := face_conservative xm (xfcenters topo) s in
  let s := face_conservative xp (xfcenters topo) s in
  let s := face_conservative ym (yfcenters topo) s in
  let s := face_conservative yp (yfcenters topo) s in
  s.

(** The state once the face values are extrapolated and the depths taken,
    before any correction. *)
Definition uncorrected (s : States T) (runtime : Runtime T)
  (config : Config T) : States T :=
  get_depths (topo runtime)
    (get_face_conservatives (theta (params config)) s).

(** The state after the two correction blocks, before the rounding fix. *)
Definition corrected (s : States T) (runtime : Runtime T) (config : Config T)
  : States T :=
  fix_neg_depths_y (fix_neg_depths_x (uncorrected s runtime config)).

(** The state after the rounding fix, before the velocities. *)
Definition depths_fixed (s : States T) (runtime : Runtime T)
  (config : Config T) : States T :=
  fix_rounding_errors (tol runtime) (corrected s runtime config).

(** The arrays are updated in place and [states] is returned; the result
    pairs it with [runtime] as the call leaves it. *)
Definition reconstruct (states : States T) (runtime : Runtime T)
  (config : Config T) : States T * Runtime T :=
  let s := depths_fixed states runtime config in
  let s := get_face_velocities (drytol (params config)) s in
  let s := recombine_face_conservatives (topo runtime) s in
  (s, runtime).

End Reconstruct.

(** ** The cell pairs of the positivity correction *)

Inductive direction : Type := dir_x | dir_y.

Section Pairs.

Context {T : Type}.

(** The interior cells: [H] and [topo.centers] have one entry per cell. *)
Definition interior_cell (s : States T) (j i : Z) : Prop :=
  0 <= j < ny s /\ 0 <= i < nx s.

(** The arguments [hl] and [hr] of [_correct_neg_depth_internal] for cell
    [(j, i)]: along x the plus side of its left face and the minus side of
    its right face, along y the plus side of the face below and the minus
    side of the face above. *)
Definition hl (s : States T) (dir : direction) (j i : Z) : T :=
  match dir with
  | dir_x => fU s xp 0 j i
  | dir_y => fU s yp 0 j i
  end.

Definition hr (s : States T) (dir : direction) (j i : Z) : T :=
  match dir with
  | dir_x => fU s xm 0 j (1 + i)
  | dir_y => fU s ym 0 (1 + j) i
  end.

End Pairs.

Definition minus_side (dir : direction) : side :=
  match dir with dir_x => xm | dir_y => ym end.

Definition plus_side (dir : direction) : side :=
  match dir with dir_x => xp | dir_y => yp end.

(** The mean of two values, as the specification takes it of the two face
    depths of a cell. *)
Definition average {T : Type} `{Scalar T} (a b : T) : T :=
  ((a + b) / lit2)%S.

(** The correction of a cell fires when one of its two face depths is
    negative. *)
Definition fires {T : Type} `{Scalar T} (s : States T) (dir : direction)
  (j i : Z) : bool :=
  (hl s dir j i <? lit0)%S || (hr s dir j i <? lit0)%S.

(** The fields a call only reads: two states agree on them. *)
Definition same_inputs {T : Type} (s s' : States T) : Prop :=
  ngh s' = ngh s /\ Q_shape s' = Q_shape s /\ Q s' = Q s /\ U s' = U s.

(** ** Vocabulary of the flat-field property, in exact arithmetic *)

(** The minimum and maximum that [fmin] and [fmax] take of two finite
    values. *)
Definition qmin (a b : Qc) : Qc := if XR.ltb (Fin b) (Fin a) then b else a.
Definition qmax (a b : Qc) : Qc := if XR.ltb (Fin a) (Fin b) then b else a.

(** All cell-centre values along a direction are equal: along x each
    component has one finite value [c k j] per row, along y one value
    [c k i] per column. *)
Definition flat_along (s : States xrat) (dir : direction)
  (c : Z -> Z -> Qc) : Prop :=
  forall k j i,
    Q s k j i = Fin (match dir with dir_x => c k j | dir_y => c k i end).

(** The row (along x) or column (along y) of [Q] that face [(j, i)] lies
    on. *)
Definition face_line (s : States xrat) (dir : direction) (j i : Z) : Z :=
  match dir with
  | dir_x => ybg s + j
  | dir_y => xbg s + i
  end.

(** The face topography under [hl] and under [hr] of cell [(j, i)]. *)
Definition topo_left (t : Topo xrat) (dir : direction) (j i : Z) : xrat :=
  match dir with
  | dir_x => xfcenters t j i
  | dir_y => yfcenters t j i
  end.

Definition topo_right (t : Topo xrat) (dir : direction) (j i : Z) : xrat :=
  match dir with
  | dir_x => xfcenters t j (1 + i)
  | dir_y => yfcenters t (1 + j) i
  end.

(** ** Numbers in exact arithmetic *)

Definition finite (x : xrat) : Prop := exists q, x = Fin q.

(** ** Vocabulary of the limiter, in exact arithmetic *)

(** The clamped ratio of [_minmod_slope_kernel] for a finite ratio [r]:
    [max(min(min(r * theta, (1 + r) / 2), theta), 0)]. *)
Definition clamped (r th : Qc) : Qc :=
  (qmax (qmin (qmin (r * th) ((1 + r) / Q2Qc 2)) th) 0)%Qc.

(** ** Vocabulary of the whole call *)

(** The faces a buffer of side [d] holds: [ny] by [nx + 1] along x,
    [ny + 1] by [nx] along y. *)
Definition in_face_range {T : Type} (s : States T) (d : side) (j i : Z)
  : Prop :=
  match d with
  | xm | xp => 0 <= j < ny s /\ 0 <= i <= nx s
  | ym | yp => 0 <= j <= ny s /\ 0 <= i < nx s
  end.

(** The two facts about the element type that keeping depths from going
    negative rests on: zero is not below zero, and twice a value that is
    not below zero is not below zero. *)
Definition sign_safe (T : Type) `{Scalar T} : Prop :=
  (lit0 <? lit0)%S = false /\
  (forall x : T, (x <? lit0)%S = false -> (x * lit2 <? lit0)%S = false).

Arguments sign_safe T {_}.

(** Two states hold the same centre depth and the same face depths, over
    the same extents. *)
Definition depths_agree {T : Type} (s s' : States T) : Prop :=
  nx s' = nx s /\ ny s' = ny s /\
  (forall j i, H s' j i = H s j i) /\
  (forall d j i, fU s' d 0 j i = fU s d 0 j i).

(** Two states hold the same [Q] with the same shape and ghost-cell count;
    [U], [H] and the face buffers may differ. *)
Definition same_Q {T : Type} (s s' : States T) : Prop :=
  ngh s' = ngh s /\ Q_shape s' = Q_shape s /\ Q s' = Q s.

(** The same problem with the two axes exchanged: every array transposed,
    the two extents of [Q] and the two face topographies exchanged, and the
    x face buffers holding what the y face buffers held. *)
Definition transpose2 {T : Type} (a : array2 T) : array2 T :=
  fun j i => a i j.

Definition swap_side (d : side) : side :=
  match d with
  | xm => ym
  | xp => yp
  | ym => xm
  | yp => xp
  end.

Definition transpose_states {T : Type} (s : States T) : States T :=
  {| ngh := ngh s;
     Q_shape := (fst (fst (Q_shape s)), snd (Q_shape s),
                 snd (fst (Q_shape s)));
     Q := fun k => transpose2 (Q s k);
     U := fun k => transpose2 (U s k);
     H := transpose2 (H s);
     fQ := fun d k => transpose2 (fQ s (swap_side d) k);
     fU := fun d k => transpose2 (fU s (swap_side d) k) |}.

Definition transpose_runtime {T : Type} (r : Runtime T) : Runtime T :=
  {| topo := {| centers := transpose2 (centers (topo r));
                xfcenters := transpose2 (yfcenters (topo r));
                yfcenters := transpose2 (xfcenters (topo r)) |};
     tol := tol r |}.

(** The depths of [s'] are those of [s] with the axes exchanged. *)
Definition depths_transposed {T : Type} (s s' : States T) : Prop :=
  nx s' = ny s /\ ny s' = nx s /\
  (forall j i, H s' j i = H s i j) /\
  (forall d j i, fU s' d 0 j i = fU s (swap_side d) 0 i j).

(** ** Sample inputs *)

Definition const2 {T : Type} (v : T) : array2 T := fun _ _ => v.
Definition const3 {T : Type} (v : T) : array3 T := fun _ _ _ => v.

Definition ratio (n : Z) (d : positive) : xrat := Fin (Q2Qc (n # d)).

(** The receding shoreline of the specification: a strip of five cells, two
    ghost cells on each side, surface elevations 1, 1, 1, 0.01 and -0.5 over
    a flat bed at 0, the ghost cells repeating the nearest interior cell, no
    momentum.  Every row of [Q] holds the strip.  The output buffers hold
    zeros and [U] holds 7, left from an earlier step. *)
Definition shoreline_w (i : Z) : xrat :=
  if i <? 5 then ratio 1 1
  else if i =? 5 then ratio 1 100
  else ratio (-1) 2.

Definition shoreline : States xrat := {|
  ngh := 2;
  Q_shape := (3, 5, 9);
  Q := fun k _ i => if k =? 0 then shoreline_w i else Fin 0;
  U := const3 (ratio 7 1);
  H := const2 (Fin 0);
  fQ := fun _ => const3 (Fin 0);
  fU := fun _ => const3 (Fin 0)
|}.

(** [b = 0] and [tol = 1e-10] *)
Definition flat_bed : Runtime xrat := {|
  topo := {| centers := const2 (Fin 0);
             xfcenters := const2 (Fin 0);
             yfcenters := const2 (Fin 0) |};
  tol := ratio 1 10000000000
|}.

(** [theta = 1.3] and [drytol = 1e-3] *)
Definition shoreline_config : Config xrat := {|
  params := {| theta := ratio 13 10; drytol := ratio 1 1000 |}
|}.

(** The shoreline scenario ahead of the correction blocks. *)
Definition shoreline_uncorrected : States xrat :=
  uncorrected shoreline flat_bed shoreline_config.

(** The same scenario on binary64; the literals are the doubles nearest to
    0.01, 1e-10, 1.3 and 1e-3. *)
Definition f64_shoreline_w (i : Z) : float :=
  if i <? 5 then 1%float
  else if i =? 5 then 0x1.47ae147ae147bp-7%float
  else (-0.5)%float.

Definition f64_shoreline : States float := {|
  ngh := 2;
  Q_shape := (3, 5, 9);
  Q := fun k _ i => if k =? 0 then f64_shoreline_w i else 0%float;
  U := const3 7%float;
  H := const2 0%float;
  fQ := fun _ => const3 0%float;
  fU := fun _ => const3 0%float
|}.

Definition f64_flat_bed : Runtime float := {|
  topo := {| centers := const2 0%float;
             xfcenters := const2 0%float;
             yfcenters := const2 0%float |};
  tol := 0x1.b7cdfd9d7bdbbp-34%float
|}.

Definition f64_shoreline_config : Config float := {|
  params := {| theta := 0x1.4cccccccccccdp+0%float;
               drytol := 0x1.0624dd2f1a9fcp-10%float |}
|}.

(** One interior cell with two ghost cells on each side, the water at rest
    with its surface at elevation 0 in every cell. *)
Definition still_water : States xrat := {|
  ngh := 2;
  Q_shape := (3, 5, 5);
  Q := const3 (Fin 0);
  U := const3 (Fin 0);
  H := const2 (Fin 0);
  fQ := fun _ => const3 (Fin 0);
  fU := fun _ => const3 (Fin 0)
|}.

(** A bed at elevation 1 under the faces, above that surface, and at 0 under
    the cell centre; [tol = 0]. *)
Definition raised_faces : Runtime xrat := {|
  topo := {| centers := const2 (Fin 0);
             xfcenters := const2 (Fin 1);
             yfcenters := const2 (Fin 1) |};
  tol := Fin 0
|}.

(** A bed at elevation -1, below that surface; [tol = 0]. *)
Definition bed_below : Runtime xrat := {|
  topo := {| centers := const2 (ratio (-1) 1);
             xfcenters := const2 (ratio (-1) 1);
             yfcenters := const2 (ratio (-1) 1) |};
  tol := Fin 0
|}.

(** [theta = 1], the minmod limiter, and [drytol = 1e-3]. *)
Definition minmod_config : Config xrat := {|
  params := {| theta := Fin 1; drytol := ratio 1 1000 |}
|}.

(** The shoreline with output buffers left over from another step: [H] and
    the face buffers hold 7 where [shoreline] holds zeros. *)
Definition stale_shoreline : States xrat := {|
  ngh := 2;
  Q_shape := (3, 5, 9);
  Q := Q shoreline;
  U := const3 (Fin 0);
  H := const2 (ratio 7 1);
  fQ := fun _ => const3 (ratio 7 1);
  fU := fun _ => const3 (ratio 7 1)
|}.

(** [theta = 1.3] and [drytol = 0]: no depth counts as dry. *)
Definition no_dry_guard : Config xrat := {|
  params := {| theta := ratio 13 10; drytol := Fin 0 |}
|}.

(** The still water over the bed with raised faces, ahead of the correction
    blocks: the centre depth is zero and every face depth is -1. *)
Definition still_water_uncorrected : States xrat :=
  uncorrected still_water raised_faces minmod_config.

(** On binary64: the still water over the bed with raised faces, [tol = 0],
    and the shoreline parameters with [drytol = 0]. *)
Definition f64_still_water : States float := {|
  ngh := 2;
  Q_shape := (3, 5, 5);
  Q := const3 0%float;
  U := const3 0%float;
  H := const2 0%float;
  fQ := fun _ => const3 0%float;
  fU := fun _ => const3 0%float
|}.

Definition f64_raised_faces : Runtime float := {|
  topo := {| centers := const2 0%float;
             xfcenters := const2 1%float;
             yfcenters := const2 1%float |};
  tol := 0%float
|}.

Definition f64_no_dry_guard : Config float := {|
  params := {| theta := 0x1.4cccccccccccdp+0%float; drytol := 0%float |}
|}.







(** * Properties *)

(** ** What each stage writes *)

(** Case analysis on the index tests of the slice assignments. *)
Ltac index_cases :=
  repeat match goal with
  | |- context [Z.eqb ?a ?b] => destruct (Z.eqb_spec a b)
  | |- context [Z.leb ?a ?b] => destruct (Z.leb_spec a b)
  | |- context [Z.ltb ?a ?b] => destruct (Z.ltb_spec a b)
  end; cbn [andb]; try lia; try reflexivity.

Section Stages.

Context {T : Type} `{Scalar T}.
Local Open Scope scalar_scope.

Implicit Types (s : States T) (t : Topo T) (d : side) (j i k : Z).

Lemma same_inputs_nx s s' : same_inputs s s' -> nx s' = nx s.
Proof. intros (Hn & Hs & _). unfold nx. now rewrite Hn, Hs. Qed.

Lemma same_inputs_ny s s' : same_inputs s s' -> ny s' = ny s.
Proof. intros (Hn & Hs & _). unfold ny. now rewrite Hn, Hs. Qed.

(** *** Extrapolation to the faces *)

Lemma get_face_conservatives_inputs th s :
  same_inputs s (get_face_conservatives th s).
Proof. repeat split. Qed.

Lemma get_face_conservatives_fU th s :
  fU (get_face_conservatives th s) = fU s.
Proof. reflexivity. Qed.

Lemma get_face_conservatives_xm th s k j i :
  fQ (get_face_conservatives th s) xm k j i =
  Q s k (ybg s + j)%Z (xbg s - 1 + i)%Z + slpx s th k j i.
Proof. reflexivity. Qed.

Lemma get_face_conservatives_xp th s k j i :
  fQ (get_face_conservatives th s) xp k j i =
  Q s k (ybg s + j)%Z (xbg s + i)%Z - slpx s th k j (1 + i)%Z.
Proof. reflexivity. Qed.

Lemma get_face_conservatives_ym th s k j i :
  fQ (get_face_conservatives th s) ym k j i =
  Q s k (ybg s - 1 + j)%Z (xbg s + i)%Z + slpy s th k j i.
Proof. reflexivity. Qed.

Lemma get_face_conservatives_yp th s k j i :
  fQ (get_face_conservatives th s) yp k j i =
  Q s k (ybg s + j)%Z (xbg s + i)%Z - slpy s th k (1 + j)%Z i.
Proof. reflexivity. Qed.

(** *** Depths *)

Lemma get_depths_inputs t s : same_inputs s (get_depths t s).
Proof. repeat split. Qed.

Lemma get_depths_fQ t s : fQ (get_depths t s) = fQ s.
Proof. reflexivity. Qed.

Lemma get_depths_H t s j i :
  H (get_depths t s) j i = Q s 0%Z (ybg s + j)%Z (xbg s + i)%Z - centers t j i.
Proof. reflexivity. Qed.

Lemma get_depths_fU t s d j i :
  fU (get_depths t s) d 0%Z j i = fQ s d 0%Z j i - ftopo t d j i.
Proof. destruct d; reflexivity. Qed.

(** *** Negative depths, x direction *)

Lemma fix_neg_depths_x_inputs s : same_inputs s (fix_neg_depths_x s).
Proof. repeat split. Qed.

Lemma fix_neg_depths_x_H s : H (fix_neg_depths_x s) = H s.
Proof. reflexivity. Qed.

Lemma fix_neg_depths_x_fQ s : fQ (fix_neg_depths_x s) = fQ s.
Proof. reflexivity. Qed.

Lemma fix_neg_depths_x_ym s : fU (fix_neg_depths_x s) ym = fU s ym.
Proof. reflexivity. Qed.

Lemma fix_neg_depths_x_yp s : fU (fix_neg_depths_x s) yp = fU s yp.
Proof. reflexivity. Qed.

(** The plus side of face [i], for the interior cell [i]. *)
Lemma fix_neg_depths_x_left s j i :
  (0 <= i < nx s)%Z ->
  fU (fix_neg_depths_x s) xp 0%Z j i =
  fst (_correct_neg_depth_internal (H s j i)
         (fU s xp 0%Z j i) (fU s xm 0%Z j (1 + i)%Z)
         (fU s xp 0%Z j i) (fU s xm 0%Z j (1 + i)%Z)).
Proof.
  intros Hi. unfold fix_neg_depths_x, set_depth, set_fU, set_comp,
    set_cols, set_col, view.
  cbn -[Z.add Z.sub Z.eqb Z.leb Z.ltb].
  index_cases. now rewrite Z.sub_0_r.
Qed.

(** The minus side of face [i + 1], for the interior cell [i]. *)
Lemma fix_neg_depths_x_right s j i :
  (0 <= i < nx s)%Z ->
  fU (fix_neg_depths_x s) xm 0%Z j (1 + i)%Z =
  snd (_correct_neg_depth_internal (H s j i)
         (fU s xp 0%Z j i) (fU s xm 0%Z j (1 + i)%Z)
         (fU s xp 0%Z j i) (fU s xm 0%Z j (1 + i)%Z)).
Proof.
  intros Hi. unfold fix_neg_depths_x, set_depth, set_fU, set_comp,
    set_cols, set_col, view.
  cbn -[Z.add Z.sub Z.eqb Z.leb Z.ltb].
  index_cases. now replace (1 + i - 1)%Z with i by lia.
Qed.

(** The two outermost columns. *)
Lemma fix_neg_depths_x_edge_plus s j :
  (0 <= nx s)%Z ->
  fU (fix_neg_depths_x s) xp 0%Z j (nx s) =
  _correct_neg_depth_edge (fU s xp 0%Z j (nx s)) (fU s xp 0%Z j (nx s)).
Proof.
  intros Hn. unfold fix_neg_depths_x, set_depth, set_fU, set_comp,
    set_cols, set_col, view.
  cbn -[Z.add Z.sub Z.eqb Z.leb Z.ltb].
  index_cases.
Qed.

Lemma fix_neg_depths_x_edge_minus s j :
  fU (fix_neg_depths_x s) xm 0%Z j 0%Z =
  _correct_neg_depth_edge (fU s xm 0%Z j 0%Z) (fU s xm 0%Z j 0%Z).
Proof. reflexivity. Qed.

(** *** Negative depths, y direction *)

Lemma fix_neg_depths_y_inputs s : same_inputs s (fix_neg_depths_y s).
Proof. repeat split. Qed.

Lemma fix_neg_depths_y_H s : H (fix_neg_depths_y s) = H s.
Proof. reflexivity. Qed.

Lemma fix_neg_depths_y_fQ s : fQ (fix_neg_depths_y s) = fQ s.
Proof. reflexivity. Qed.

Lemma fix_neg_depths_y_xm s : fU (fix_neg_depths_y s) xm = fU s xm.
Proof. reflexivity. Qed.

Lemma fix_neg_depths_y_xp s : fU (fix_neg_depths_y s) xp = fU s xp.
Proof. reflexivity. Qed.

Lemma fix_neg_depths_y_left s j i :
  (0 <= j < ny s)%Z ->
  fU (fix_neg_depths_y s) yp 0%Z j i =
  fst (_correct_neg_depth_internal (H s j i)
         (fU s yp 0%Z j i) (fU s ym 0%Z (1 + j)%Z i)
         (fU s yp 0%Z j i) (fU s ym 0%Z (1 + j)%Z i)).
Proof.
  intros Hj. unfold fix_neg_depths_y, set_depth, set_fU, set_comp,
    set_rows, set_row, view.
  cbn -[Z.add Z.sub Z.eqb Z.leb Z.ltb].
  index_cases. now rewrite Z.sub_0_r.
Qed.

Lemma fix_neg_depths_y_right s j i :
  (0 <= j < ny s)%Z ->
  fU (fix_neg_depths_y s) ym 0%Z (1 + j)%Z i =
  snd (_correct_neg_depth_internal (H s j i)
         (fU s yp 0%Z j i) (fU s ym 0%Z (1 + j)%Z i)
         (fU s yp 0%Z j i) (fU s ym 0%Z (1 + j)%Z i)).
Proof.
  intros Hj. unfold fix_neg_depths_y, set_depth, set_fU, set_comp,
    set_rows, set_row, view.
  cbn -[Z.add Z.sub Z.eqb Z.leb Z.ltb].
  index_cases. now replace (1 + j - 1)%Z with j by lia.
Qed.

Lemma fix_neg_depths_y_edge_plus s i :
  (0 <= ny s)%Z ->
  fU (fix_neg_depths_y s) yp 0%Z (ny s) i =
  _correct_neg_depth_edge (fU s yp 0%Z (ny s) i) (fU s yp 0%Z (ny s) i).
Proof.
  intros Hn. unfold fix_neg_depths_y, set_depth, set_fU, set_comp,
    set_rows, set_row, view.
  cbn -[Z.add Z.sub Z.eqb Z.leb Z.ltb].
  index_cases.
Qed.

Lemma fix_neg_depths_y_edge_minus s i :
  fU (fix_neg_depths_y s) ym 0%Z 0%Z i =
  _correct_neg_depth_edge (fU s ym 0%Z 0%Z i) (fU s ym 0%Z 0%Z i).
Proof. reflexivity. Qed.

(** *** The corrected depth arrays as a whole *)

Lemma fix_neg_depths_x_xp s :
  fU (fix_neg_depths_x s) xp 0%Z =
  let out := fun j i =>
    _correct_neg_depth_internal (H s j i)
      (fU s xp 0%Z j i) (view (fU s xm 0%Z) 0 1 j i)
      (fU s xp 0%Z j i) (view (fU s xm 0%Z) 0 1 j i) in
  let a := set_cols 0 (nx s) (fun j i => fst (out j i)) (fU s xp 0%Z) in
  set_col (nx s)
    (fun j => _correct_neg_depth_edge (a j (nx s)) (a j (nx s))) a.
Proof. reflexivity. Qed.

Lemma fix_neg_depths_x_xm s :
  fU (fix_neg_depths_x s) xm 0%Z =
  let out := fun j i =>
    _correct_neg_depth_internal (H s j i)
      (fU s xp 0%Z j i) (view (fU s xm 0%Z) 0 1 j i)
      (fU s xp 0%Z j i) (view (fU s xm 0%Z) 0 1 j i) in
  let a :=
    set_cols 1 (nx s + 1)%Z (fun j i => snd (out j i)) (fU s xm 0%Z) in
  set_col 0 (fun j => _correct_neg_depth_edge (a j 0%Z) (a j 0%Z)) a.
Proof. reflexivity. Qed.

Lemma fix_neg_depths_y_yp s :
  fU (fix_neg_depths_y s) yp 0%Z =
  let out := fun j i =>
    _correct_neg_depth_internal (H s j i)
      (fU s yp 0%Z j i) (view (fU s ym 0%Z) 1 0 j i)
      (fU s yp 0%Z j i) (view (fU s ym 0%Z) 1 0 j i) in
  let a := set_rows 0 (ny s) (fun j i => fst (out j i)) (fU s yp 0%Z) in
  set_row (ny s)
    (fun i => _correct_neg_depth_edge (a (ny s) i) (a (ny s) i)) a.
Proof. reflexivity. Qed.

Lemma fix_neg_depths_y_ym s :
  fU (fix_neg_depths_y s) ym 0%Z =
  let out := fun j i =>
    _correct_neg_depth_internal (H s j i)
      (fU s yp 0%Z j i) (view (fU s ym 0%Z) 1 0 j i)
      (fU s yp 0%Z j i) (view (fU s ym 0%Z) 1 0 j i) in
  let a :=
    set_rows 1 (ny s + 1)%Z (fun j i => snd (out j i)) (fU s ym 0%Z) in
  set_row 0 (fun i => _correct_neg_depth_edge (a 0%Z i) (a 0%Z i)) a.
Proof. reflexivity. Qed.

(** *** Rounding errors *)

Lemma fix_rounding_errors_inputs tl s :
  same_inputs s (fix_rounding_errors tl s).
Proof. repeat split. Qed.

Lemma fix_rounding_errors_H tl s : H (fix_rounding_errors tl s) = H s.
Proof. reflexivity. Qed.

Lemma fix_rounding_errors_fQ tl s : fQ (fix_rounding_errors tl s) = fQ s.
Proof. reflexivity. Qed.

Lemma fix_rounding_errors_fU tl s d j i :
  fU (fix_rounding_errors tl s) d 0%Z j i =
  _fix_rounding_err_kernel (fU s d 0%Z j i) tl (fU s d 0%Z j i).
Proof. destruct d; reflexivity. Qed.

(** *** Face velocities *)

Lemma get_face_velocities_inputs dt s :
  same_inputs s (get_face_velocities dt s).
Proof. repeat split. Qed.

Lemma get_face_velocities_H dt s : H (get_face_velocities dt s) = H s.
Proof. reflexivity. Qed.

Lemma get_face_velocities_fQ dt s : fQ (get_face_velocities dt s) = fQ s.
Proof. reflexivity. Qed.

Lemma get_face_velocities_depth dt s d j i :
  fU (get_face_velocities dt s) d 0%Z j i = fU s d 0%Z j i.
Proof. destruct d; reflexivity. Qed.

Lemma get_face_velocities_u dt s d j i :
  fU (get_face_velocities dt s) d 1%Z j i =
  fst (_recnstrt_face_vel_kernel
         (fU s d 0%Z j i) (fQ s d 1%Z j i) (fQ s d 2%Z j i) dt).
Proof. destruct d; reflexivity. Qed.

Lemma get_face_velocities_v dt s d j i :
  fU (get_face_velocities dt s) d 2%Z j i =
  snd (_recnstrt_face_vel_kernel
         (fU s d 0%Z j i) (fQ s d 1%Z j i) (fQ s d 2%Z j i) dt).
Proof. destruct d; reflexivity. Qed.

(** *** Recombination *)

Lemma recombine_inputs t s :
  same_inputs s (recombine_face_conservatives t s).
Proof. repeat split. Qed.

Lemma recombine_H t s : H (recombine_face_conservatives t s) = H s.
Proof. reflexivity. Qed.

Lemma recombine_fU t s : fU (recombine_face_conservatives t s) = fU s.
Proof. reflexivity. Qed.

Lemma recombine_w t s d j i :
  fQ (recombine_face_conservatives t s) d 0%Z j i =
  fU s d 0%Z j i + ftopo t d j i.
Proof. destruct d; reflexivity. Qed.

Lemma recombine_hu t s d j i :
  fQ (recombine_face_conservatives t s) d 1%Z j i =
  fU s d 0%Z j i * fU s d 1%Z j i.
Proof. destruct d; reflexivity. Qed.

Lemma recombine_hv t s d j i :
  fQ (recombine_face_conservatives t s) d 2%Z j i =
  fU s d 0%Z j i * fU s d 2%Z j i.
Proof. destruct d; reflexivity. Qed.

End Stages.

(** ** Properties that hold for every element type *)

Section Generic.

Context {T : Type} `{Scalar T}.
Local Open Scope scalar_scope.

Implicit Types (states s : States T) (runtime : Runtime T)
  (config : Config T) (d : side) (dir : direction) (j i : Z).

(** What the two correction blocks do to the pair of an interior cell. *)
Lemma corrected_pair s dir j i :
  interior_cell s j i ->
  let s' := fix_neg_depths_y (fix_neg_depths_x s) in
  (hl s' dir j i, hr s' dir j i) =
  _correct_neg_depth_internal (H s j i)
    (hl s dir j i) (hr s dir j i) (hl s dir j i) (hr s dir j i).
Proof.
  intros [Hj Hi] s'. subst s'. destruct dir; unfold hl, hr.
  - rewrite fix_neg_depths_y_xp, fix_neg_depths_y_xm.
    rewrite fix_neg_depths_x_left, fix_neg_depths_x_right by assumption.
    now destruct (_correct_neg_depth_internal _ _ _ _ _).
  - rewrite <- (same_inputs_ny (fix_neg_depths_x_inputs s)) in Hj.
    rewrite fix_neg_depths_y_left, fix_neg_depths_y_right by assumption.
    rewrite fix_neg_depths_x_H, fix_neg_depths_x_yp, fix_neg_depths_x_ym.
    now destruct (_correct_neg_depth_internal _ _ _ _ _).
Qed.

Lemma corrected_H s : H (fix_neg_depths_y (fix_neg_depths_x s)) = H s.
Proof. reflexivity. Qed.

(** The final depth of a face is the one the rounding fix leaves. *)
Lemma reconstruct_depth states runtime config d j i :
  fU (fst (reconstruct states runtime config)) d 0 j i =
  fU (depths_fixed states runtime config) d 0 j i.
Proof.
  unfold reconstruct. cbn [fst].
  now rewrite recombine_fU, get_face_velocities_depth.
Qed.

Lemma reconstruct_H states runtime config j i :
  H (fst (reconstruct states runtime config)) j i =
  Q states 0 (ybg states + j)%Z (xbg states + i)%Z
  - centers (topo runtime) j i.
Proof.
  unfold reconstruct, depths_fixed, corrected, uncorrected. cbn [fst].
  rewrite recombine_H, get_face_velocities_H, fix_rounding_errors_H.
  rewrite fix_neg_depths_y_H, fix_neg_depths_x_H, get_depths_H.
  reflexivity.
Qed.

Lemma same_inputs_trans s1 s2 s3 :
  same_inputs s1 s2 -> same_inputs s2 s3 -> same_inputs s1 s3.
Proof.
  intros (A1 & A2 & A3 & A4) (B1 & B2 & B3 & B4).
  repeat split; etransitivity; eassumption.
Qed.

Lemma corrected_inputs states runtime config :
  same_inputs states (corrected states runtime config).
Proof.
  unfold corrected, uncorrected.
  eapply same_inputs_trans; [apply get_face_conservatives_inputs |].
  eapply same_inputs_trans; [apply get_depths_inputs |].
  eapply same_inputs_trans; [apply fix_neg_depths_x_inputs |].
  apply fix_neg_depths_y_inputs.
Qed.

Lemma reconstruct_inputs states runtime config :
  same_inputs states (fst (reconstruct states runtime config)).
Proof.
  unfold reconstruct, depths_fixed. cbn [fst].
  eapply same_inputs_trans; [apply corrected_inputs |].
  eapply same_inputs_trans; [apply fix_rounding_errors_inputs |].
  eapply same_inputs_trans; [apply get_face_velocities_inputs |].
  apply recombine_inputs.
Qed.

Lemma reconstruct_runtime states runtime config :
  snd (reconstruct states runtime config) = runtime.
Proof. unfold reconstruct. cbn [snd]. reflexivity. Qed.

(** C9. The call leaves the conservative array [Q], its shape and the
    ghost-cell count as they were, and the runtime object, hence the three
    topography arrays, as well: the only fields it writes are [H] and the
    face buffers. *)
Theorem reconstruct_reads_Q_and_topography states runtime config :
  let r := reconstruct states runtime config in
  Q (fst r) = Q states /\
  Q_shape (fst r) = Q_shape states /\
  ngh (fst r) = ngh states /\
  snd r = runtime /\
  centers (topo (snd r)) = centers (topo runtime) /\
  xfcenters (topo (snd r)) = xfcenters (topo runtime) /\
  yfcenters (topo (snd r)) = yfcenters (topo runtime).
Proof.
  cbv zeta. rewrite reconstruct_runtime.
  destruct (reconstruct_inputs states runtime config) as (A1 & A2 & A3 & _).
  repeat split; assumption.
Qed.

(** C8. Of the cell-centre state the call writes the depth [H] only, as
    the surface elevation [Q[0]] of the interior minus [topo.centers]; the
    array [U], which the docstring lists as updated, holds after the call
    what it held before: no velocity is computed at the cell centres. *)
Theorem reconstruct_writes_centre_depth_only states runtime config :
  let r := fst (reconstruct states runtime config) in
  U r = U states /\
  forall j i,
    H r j i =
    Q states 0 (ybg states + j)%Z (xbg states + i)%Z
    - centers (topo runtime) j i.
Proof.
  cbv zeta. split.
  - apply (reconstruct_inputs states runtime config).
  - intros. apply reconstruct_H.
Qed.

(** C3. After the call, on every face side and at every face: the surface
    elevation is the face depth plus the face topography, and each momentum
    is the face depth times the face velocity, with the depth being the
    corrected one. *)
Theorem recombination_consistency states runtime config d j i :
  let r := fst (reconstruct states runtime config) in
  fQ r d 0 j i = fU r d 0 j i + ftopo (topo runtime) d j i /\
  fQ r d 1 j i = fU r d 0 j i * fU r d 1 j i /\
  fQ r d 2 j i = fU r d 0 j i * fU r d 2 j i /\
  fU r d 0 j i = fU (depths_fixed states runtime config) d 0 j i.
Proof.
  cbv zeta. unfold reconstruct. cbn [fst].
  rewrite recombine_w, recombine_hu, recombine_hv, recombine_fU.
  rewrite get_face_velocities_depth. auto.
Qed.

(** C4. After the call, on every face side and at every face: the depth
    is the corrected one; where it is below [drytol] both velocities are
    zero, elsewhere each is the face momentum over the depth.  The momenta
    are the extrapolated ones, which the recombination has not yet
    overwritten. *)
Theorem face_velocity_dry_or_quotient states runtime config d j i :
  let pre := depths_fixed states runtime config in
  let r := fst (reconstruct states runtime config) in
  let depth := fU r d 0 j i in
  let dry := depth <? drytol (params config) in
  depth = fU pre d 0 j i /\
  fU r d 1 j i = (if dry then lit0 else fQ pre d 1 j i / depth) /\
  fU r d 2 j i = (if dry then lit0 else fQ pre d 2 j i / depth) /\
  fQ pre d = fQ (get_face_conservatives (theta (params config)) states) d.
Proof.
  cbv zeta. rewrite reconstruct_depth.
  unfold reconstruct. cbn [fst]. rewrite !recombine_fU.
  rewrite get_face_velocities_u, get_face_velocities_v.
  unfold _recnstrt_face_vel_kernel.
  destruct (_ <? _); auto.
Qed.

(** The pair of an interior cell where the correction fires: a zero on the
    side the kernel finds negative first, twice the centre depth on the
    other. *)
Lemma fired_pair s dir j i :
  interior_cell s j i ->
  fires s dir j i = true ->
  let s' := fix_neg_depths_y (fix_neg_depths_x s) in
  hl s' dir j i = (if hl s dir j i <? lit0 then lit0 else H s j i * lit2) /\
  hr s' dir j i = (if hl s dir j i <? lit0 then H s j i * lit2 else lit0).
Proof.
  intros Hc Hf s'. pose proof (corrected_pair dir Hc) as E.
  cbv zeta in E. fold s' in E.
  unfold _correct_neg_depth_internal in E. unfold fires in Hf.
  destruct (hl s dir j i <? lit0).
  - injection E as E1 E2. split; assumption.
  - cbn [orb] in Hf. rewrite Hf in E.
    injection E as E1 E2. split; assumption.
Qed.


(** C10. An interior cell whose two face depths along a direction are
    both not negative keeps them through the two correction blocks, and the
    cell-centre depth is kept in every case. *)
Theorem internal_corrector_identity s dir j i :
  interior_cell s j i ->
  (hl s dir j i <? lit0) = false ->
  (hr s dir j i <? lit0) = false ->
  let s' := fix_neg_depths_y (fix_neg_depths_x s) in
  hl s' dir j i = hl s dir j i /\
  hr s' dir j i = hr s dir j i /\
  H s' j i = H s j i.
Proof.
  intros Hc Hl Hr s'. pose proof (corrected_pair dir Hc) as E.
  cbv zeta in E. fold s' in E.
  unfold _correct_neg_depth_internal in E. rewrite Hl, Hr in E.
  injection E as E1 E2. repeat split; assumption.
Qed.

(** C5, as the code has it.  The rounding fix runs on the corrected face
    depths: on every face side a depth below [tol] becomes zero and any
    other is kept.  The cell-centre depth [H] does not go through it: after
    the call it is the difference computed at the start. *)
Theorem rounding_fix_on_faces states runtime config d j i :
  let c := corrected states runtime config in
  let r := fst (reconstruct states runtime config) in
  fU r d 0 j i =
    (if fU c d 0 j i <? tol runtime then lit0 else fU c d 0 j i) /\
  H r j i = H c j i.
Proof.
  cbv zeta. rewrite reconstruct_depth. unfold depths_fixed.
  rewrite fix_rounding_errors_fU. split; [reflexivity |].
  unfold reconstruct, depths_fixed. cbn [fst].
  now rewrite recombine_H, get_face_velocities_H, fix_rounding_errors_H.
Qed.

End Generic.

(** ** Exact arithmetic: facts about [xrat] *)

Module XRFacts.

Local Open Scope Qc_scope.

(** From canonical rationals to [Q], where [lra] and [nra] work. *)
Lemma this_add (a b : Qc) : (this (a + b) == this a + this b)%Q.
Proof. unfold Qcplus, Q2Qc. cbn [this]. apply Qred_correct. Qed.

Lemma this_mul (a b : Qc) : (this (a * b) == this a * this b)%Q.
Proof. unfold Qcmult, Q2Qc. cbn [this]. apply Qred_correct. Qed.

Lemma this_opp (a : Qc) : (this (- a) == - this a)%Q.
Proof. unfold Qcopp, Q2Qc. cbn [this]. apply Qred_correct. Qed.

Lemma this_sub (a b : Qc) : (this (a - b) == this a - this b)%Q.
Proof. unfold Qcminus. now rewrite this_add, this_opp. Qed.

Lemma this_inv (a : Qc) : (this (/ a) == / this a)%Q.
Proof. unfold Qcinv, Q2Qc. cbn [this]. apply Qred_correct. Qed.

Lemma this_div (a b : Qc) : (this (a / b) == this a / this b)%Q.
Proof. unfold Qcdiv. now rewrite this_mul, this_inv. Qed.

Lemma this_Q2Qc (q : QArith_base.Q) : (this (Q2Qc q) == q)%Q.
Proof. unfold Q2Qc. cbn [this]. apply Qred_correct. Qed.

Ltac to_Q :=
  unfold Qcle, Qclt in *;
  repeat rewrite ?this_add, ?this_mul, ?this_sub, ?this_opp, ?this_div,
    ?this_Q2Qc in *;
  unfold Qdiv; change (/ 2)%Q with (1 # 2)%Q.

(** The comparison of finite values. *)
Lemma ltb_fin_true (p q : Qc) : XR.ltb (Fin p) (Fin q) = true <-> p < q.
Proof.
  cbn. rewrite Qclt_alt. destruct (p ?= q); split; congruence.
Qed.

Lemma ltb_fin_false (p q : Qc) : XR.ltb (Fin p) (Fin q) = false <-> q <= p.
Proof.
  split.
  - intros E. apply Qcnot_lt_le. intros L.
    apply ltb_fin_true in L. congruence.
  - intros L. destruct (XR.ltb (Fin p) (Fin q)) eqn:E; [| reflexivity].
    apply ltb_fin_true in E. now apply Qcle_not_lt in L.
Qed.

Lemma leb_fin (p q : Qc) : XR.leb (Fin p) (Fin q) = true <-> p <= q.
Proof.
  unfold XR.leb. rewrite negb_true_iff. apply ltb_fin_false.
Qed.

(** Finite arithmetic stays finite, except for a zero divisor. *)
Lemma sub_fin (p q : Qc) : XR.sub (Fin p) (Fin q) = Fin (p - q).
Proof. reflexivity. Qed.

Lemma div_fin (p q : Qc) : q <> 0 -> XR.div (Fin p) (Fin q) = Fin (p / q).
Proof.
  intros Hq. cbn. destruct (q ?= 0) eqn:E; try reflexivity.
  now apply Qceq_alt in E.
Qed.

Lemma div_two (p : Qc) : XR.div (Fin p) (Fin (Q2Qc 2)) = Fin (p / Q2Qc 2).
Proof. reflexivity. Qed.

(** [fmin] and [fmax] on finite values. *)
Lemma fmin_fin (a b : Qc) : XR.fmin (Fin a) (Fin b) = Fin (qmin a b).
Proof. unfold XR.fmin, qmin. now destruct (XR.ltb _ _). Qed.

Lemma fmax_fin (a b : Qc) : XR.fmax (Fin a) (Fin b) = Fin (qmax a b).
Proof. unfold XR.fmax, qmax. now destruct (XR.ltb _ _). Qed.

Lemma qmin_le_r (a b : Qc) : qmin a b <= b.
Proof.
  unfold qmin. destruct (XR.ltb _ _) eqn:E.
  - apply Qcle_refl.
  - now apply ltb_fin_false in E.
Qed.

Lemma qmax_le_l (a b : Qc) : a <= qmax a b.
Proof.
  unfold qmax. destruct (XR.ltb _ _) eqn:E.
  - apply ltb_fin_true in E. now apply Qclt_le_weak.
  - apply Qcle_refl.
Qed.

Lemma qmax_le_r (a b : Qc) : b <= qmax a b.
Proof.
  unfold qmax. destruct (XR.ltb _ _) eqn:E.
  - apply Qcle_refl.
  - now apply ltb_fin_false in E.
Qed.

Lemma qmax_lub (a b c : Qc) : a <= c -> b <= c -> qmax a b <= c.
Proof. intros. unfold qmax. now destruct (XR.ltb _ _). Qed.

End XRFacts.

(** ** Properties in exact arithmetic *)

Section Exact.

Import XRFacts.
Local Open Scope Qc_scope.

(** *** The slope limiter *)

(** Whatever the ratio came out as (a number, an infinity or NaN), the
    clamped ratio is a number between zero and [max theta 0]. *)
Lemma limiter_bounds (x : xrat) (th : Qc) :
  exists p, XR.fmax (XR.fmin x (Fin th)) (Fin 0) = Fin p /\
            0 <= p /\ p <= qmax th 0.
Proof.
  destruct x as [q | | |].
  - rewrite fmin_fin, fmax_fin. eexists. split; [reflexivity |]. split.
    + apply qmax_le_r.
    + apply qmax_lub; [| apply qmax_le_r].
      eapply Qcle_trans; [apply qmin_le_r | apply qmax_le_l].
  - change (XR.fmin PInf (Fin th)) with (Fin th). rewrite fmax_fin.
    eexists. split; [reflexivity |].
    split; [apply qmax_le_r | apply Qcle_refl].
  - exists 0. split; [reflexivity |].
    split; [apply Qcle_refl | apply qmax_le_r].
  - change (XR.fmin NaN (Fin th)) with (Fin th). rewrite fmax_fin.
    eexists. split; [reflexivity |].
    split; [apply qmax_le_r | apply Qcle_refl].
Qed.

(** On finite values the kernel returns the clamped ratio times the forward
    difference, halved; a zero forward difference is covered. *)
Lemma minmod_slope_fin (s1 s2 s3 th : Qc) :
  exists p,
    _minmod_slope_kernel (Fin s1) (Fin s2) (Fin s3) (Fin th) =
    Fin (p * (s3 - s2) / Q2Qc 2) /\
    0 <= p /\ p <= qmax th 0.
Proof.
  unfold _minmod_slope_kernel.
  cbn [sub add mul div fmin fmax lit0 lit1 lit2 xrat_Scalar].
  rewrite !sub_fin.
  match goal with
  | |- context [XR.fmax (XR.fmin ?x (Fin th)) (Fin 0)] =>
      destruct (limiter_bounds x th) as (p & Ep & Hp)
  end.
  rewrite Ep. exists p. split; [reflexivity | exact Hp].
Qed.

Lemma minmod_equal_values (v th : Qc) :
  _minmod_slope_kernel (Fin v) (Fin v) (Fin v) (Fin th) = Fin 0.
Proof.
  destruct (minmod_slope_fin v v v th) as (p & E & _).
  rewrite E. f_equal. field. discriminate.
Qed.

(** *** Flat fields *)

Lemma flat_faces (s : States xrat) dir c th k j i :
  flat_along s dir c ->
  let e := get_face_conservatives (Fin th) s in
  fQ e (minus_side dir) k j i = Fin (c k (face_line s dir j i)) /\
  fQ e (plus_side dir) k j i = Fin (c k (face_line s dir j i)).
Proof.
  intros Hf e. subst e. destruct dir; cbn [minus_side plus_side face_line].
  - rewrite get_face_conservatives_xm, get_face_conservatives_xp.
    unfold slpx, view3, view. rewrite !Hf, !minmod_equal_values.
    split; cbn; f_equal; ring.
  - rewrite get_face_conservatives_ym, get_face_conservatives_yp.
    unfold slpy, view3, view. rewrite !Hf, !minmod_equal_values.
    split; cbn; f_equal; ring.
Qed.

(** The two face depths of a cell, before any correction. *)
Lemma uncorrected_pair (states : States xrat) runtime config dir j i :
  let e := get_face_conservatives (theta (params config)) states in
  let u := uncorrected states runtime config in
  hl u dir j i =
    (match dir with
     | dir_x => fQ e xp 0%Z j i
     | dir_y => fQ e yp 0%Z j i
     end - topo_left (topo runtime) dir j i)%S /\
  hr u dir j i =
    (match dir with
     | dir_x => fQ e xm 0%Z j (1 + i)%Z
     | dir_y => fQ e ym 0%Z (1 + j)%Z i
     end - topo_right (topo runtime) dir j i)%S.
Proof.
  cbv zeta. unfold uncorrected, hl, hr.
  destruct dir; rewrite !get_depths_fU; split; reflexivity.
Qed.

(** C7, as the code has it.  With a finite [theta]: the kernel returns
    slope zero on three equal finite values; when the cell-centre values
    along a direction are equal, both extrapolated face values are that
    value at every face; the face depths handed to the correction are that
    surface elevation minus the face topography, so the correction does not
    fire at a cell whose two faces have their topography at or below it. *)
Theorem flat_field_reconstruction (states : States xrat) runtime config
  dir c th :
  theta (params config) = Fin th ->
  flat_along states dir c ->
  let e := get_face_conservatives (Fin th) states in
  let u := uncorrected states runtime config in
  (forall v : Qc,
     _minmod_slope_kernel (Fin v) (Fin v) (Fin v) (Fin th) = Fin 0) /\
  (forall k j i,
     fQ e (minus_side dir) k j i = Fin (c k (face_line states dir j i)) /\
     fQ e (plus_side dir) k j i = Fin (c k (face_line states dir j i))) /\
  (forall j i,
     hl u dir j i =
       (Fin (c 0%Z (face_line states dir j i))
        - topo_left (topo runtime) dir j i)%S /\
     hr u dir j i =
       (Fin (c 0%Z (face_line states dir j i))
        - topo_right (topo runtime) dir j i)%S) /\
  (forall j i bl br,
     topo_left (topo runtime) dir j i = Fin bl ->
     topo_right (topo runtime) dir j i = Fin br ->
     bl <= c 0%Z (face_line states dir j i) ->
     br <= c 0%Z (face_line states dir j i) ->
     fires u dir j i = false).
Proof.
  intros Hth Hf e u.
  assert (Hpair : forall j i,
     hl u dir j i =
       (Fin (c 0%Z (face_line states dir j i))
        - topo_left (topo runtime) dir j i)%S /\
     hr u dir j i =
       (Fin (c 0%Z (face_line states dir j i))
        - topo_right (topo runtime) dir j i)%S).
  { intros j i.
    destruct (uncorrected_pair states runtime config dir j i) as [El Er].
    fold u in El, Er. rewrite El, Er, Hth.
    destruct dir.
    - destruct (@flat_faces states _ c th 0%Z j i Hf) as [_ Ep].
      destruct (@flat_faces states _ c th 0%Z j (1 + i)%Z Hf) as [Em _].
      cbn [minus_side plus_side face_line] in *. now rewrite Ep, Em.
    - destruct (@flat_faces states _ c th 0%Z j i Hf) as [_ Ep].
      destruct (@flat_faces states _ c th 0%Z (1 + j)%Z i Hf) as [Em _].
      cbn [minus_side plus_side face_line] in *. now rewrite Ep, Em. }
  split; [intros; apply minmod_equal_values |].
  split; [intros; now apply flat_faces |].
  split; [exact Hpair |].
  intros j i bl br Hl Hr Ll Lr. unfold fires.
  destruct (Hpair j i) as [El Er]. rewrite El, Er, Hl, Hr.
  cbn [sub ltb lit0 xrat_Scalar]. rewrite !sub_fin.
  apply orb_false_iff. split; apply ltb_fin_false; to_Q; lra.
Qed.

End Exact.

(** ** The sample inputs run through the code *)

(** Both sides of an equation between values are evaluated; canonical
    rationals are then compared as fractions. *)
Ltac xrat_compute :=
  vm_compute; try reflexivity;
  repeat (f_equal; try (now apply Qc_is_canon)).

Section Samples.

Import XRFacts.

Lemma samples_well_shaped :
  well_shaped shoreline = true /\
  well_shaped still_water = true /\
  well_shaped f64_shoreline = true.
Proof. repeat split. Qed.

(** The shoreline scenario.  Cell 3, at depth 0.01, has a negative depth on
    the minus side of its right face before the correction; the correction
    leaves twice the centre depth on its left face and zero on its right
    face.  After the call the dry face has zero velocity and its surface
    elevation equals its depth. *)
Lemma shoreline_scenario :
  let u := uncorrected shoreline flat_bed shoreline_config in
  let c := corrected shoreline flat_bed shoreline_config in
  let r := fst (reconstruct shoreline flat_bed shoreline_config) in
  (hl u dir_x 0 3, hr u dir_x 0 3) = (ratio 683 2000, ratio (-643) 2000) /\
  (hl c dir_x 0 3, hr c dir_x 0 3) = (ratio 1 50, Fin 0) /\
  (fU r xm 0 0 4, fU r xm 1 0 4, fU r xm 2 0 4) = (Fin 0, Fin 0, Fin 0) /\
  fQ r xm 0 0 4 = fU r xm 0 0 4.
Proof.
  cbv zeta. repeat split; xrat_compute.
Qed.

(** C2, the claim as stated fails.  In the shoreline scenario, with
    [tol = 1e-10] and [drytol = 1e-3], both non-negative, the last cell
    leaves the call with a cell-centre depth of -0.5. *)
Lemma centre_depth_stays_negative :
  XR.leb (Fin 0) (tol flat_bed) = true /\
  XR.leb (Fin 0) (drytol (params shoreline_config)) = true /\
  H (fst (reconstruct shoreline flat_bed shoreline_config)) 0 4
    = ratio (-1) 2 /\
  (H (fst (reconstruct shoreline flat_bed shoreline_config)) 0 4 <? lit0)%S
    = true.
Proof.
  split; [reflexivity |]. split; [reflexivity |].
  rewrite reconstruct_H. split; xrat_compute.
Qed.

(** C5, the claim as stated fails.  In the shoreline scenario the corrected
    cell-centre depth of the last cell is below [tol], and the call returns
    it as it is, not as zero. *)
Lemma centre_depth_not_snapped :
  (H (corrected shoreline flat_bed shoreline_config) 0 4
     <? tol flat_bed)%S = true /\
  H (fst (reconstruct shoreline flat_bed shoreline_config)) 0 4 <> lit0.
Proof.
  split.
  - vm_compute. reflexivity.
  - rewrite reconstruct_H. vm_compute. discriminate.
Qed.

Lemma still_water_interior : interior_cell still_water 0 0.
Proof. unfold interior_cell. vm_compute. intuition congruence. Qed.

(** C7, the claim as stated fails.  The surface elevation of the still
    water is the same in every cell, yet over the bed with raised faces the
    correction fires at the interior cell along x: the face depth on the
    left is -1 before the correction and zero after it. *)
Lemma flat_field_correction_fires :
  flat_along still_water dir_x (fun _ _ => 0%Qc) /\
  interior_cell still_water 0 0 /\
  fires (uncorrected still_water raised_faces minmod_config) dir_x 0 0
    = true /\
  hl (uncorrected still_water raised_faces minmod_config) dir_x 0 0
    = ratio (-1) 1 /\
  hl (corrected still_water raised_faces minmod_config) dir_x 0 0
    = Fin 0.
Proof.
  split; [intros k j i; reflexivity |].
  split; [apply still_water_interior |].
  split; [vm_compute; reflexivity |].
  split; xrat_compute.
Qed.

(** In the shoreline scenario the centre depth is recomputed and the
    entries of [U] still hold the 7 they held before the call. *)
Lemma centre_velocity_left_stale :
  H (fst (reconstruct shoreline flat_bed shoreline_config)) 0 0
    = ratio 1 1 /\
  U (fst (reconstruct shoreline flat_bed shoreline_config)) 1 0 0
    = ratio 7 1 /\
  U (fst (reconstruct shoreline flat_bed shoreline_config)) 2 0 0
    = ratio 7 1.
Proof.
  rewrite reconstruct_H.
  destruct (reconstruct_inputs shoreline flat_bed shoreline_config)
    as (_ & _ & _ & E).
  rewrite E. repeat split; xrat_compute.
Qed.

Lemma internal_corrector_identity_witness :
  let s' := fix_neg_depths_y (fix_neg_depths_x shoreline_uncorrected) in
  hl s' dir_x 0 0 = hl shoreline_uncorrected dir_x 0 0 /\
  hr s' dir_x 0 0 = hr shoreline_uncorrected dir_x 0 0 /\
  H s' 0 0 = H shoreline_uncorrected 0 0.
Proof.
  refine (@internal_corrector_identity xrat _ shoreline_uncorrected
            dir_x 0 0 _ _ _).
  - unfold interior_cell. vm_compute. intuition congruence.
  - vm_compute. reflexivity.
  - vm_compute. reflexivity.
Defined.

Lemma flat_field_reconstruction_witness :
  (fQ (get_face_conservatives (Fin 1) still_water) xm 0 0 1 = Fin 0 /\
   fQ (get_face_conservatives (Fin 1) still_water) xp 0 0 0 = Fin 0) /\
  fires (uncorrected still_water bed_below minmod_config) dir_x 0 0 = false.
Proof.
  split.
  - pose proof (@flat_field_reconstruction still_water raised_faces
      minmod_config dir_x (fun _ _ => 0%Qc) 1%Qc eq_refl
      (fun _ _ _ => eq_refl)) as (_ & Hfaces & _).
    split; [apply (Hfaces 0 0 1) | apply (Hfaces 0 0 0)].
  - pose proof (@flat_field_reconstruction still_water bed_below
      minmod_config dir_x (fun _ _ => 0%Qc) 1%Qc eq_refl
      (fun _ _ _ => eq_refl)) as (_ & _ & _ & Hquiet).
    apply (Hquiet 0 0 (- (1))%Qc (- (1))%Qc);
      try reflexivity; vm_compute; discriminate.
Defined.

End Samples.

(** ** Binary64

    The kernels on IEEE doubles, rounding, overflow, infinities and NaN
    included.  Where the forward difference is zero the limiter divides by
    it; the quotient is an infinity or NaN, [fmin] against [theta] brings
    the ratio back to a number, and the product with the zero difference is
    a zero.  The proofs go through the specification of the primitive
    operations ([Prim2SF]). *)

Section Binary64.

Local Open Scope float_scope.

Example float_slope_equal_values :
  _minmod_slope_kernel 1 1 1 1.25 = 0.
Proof. reflexivity. Qed.

Example float_slope_zero_denominator :
  _minmod_slope_kernel 1 2 2 1.25 = 0 /\ _minmod_slope_kernel 3 2 2 1.25 = 0.
Proof. split; reflexivity. Qed.

Example float_slope_monotone : _minmod_slope_kernel 1 2 4 1 = 0.5.
Proof. reflexivity. Qed.

(** Equal upstream values ahead of a fall: the ratio is [-0], [fmax] against
    [+0] gives [+0], and the slope, its product with the negative
    difference, is [-0]. *)
Example float_slope_negative_zero :
  Prim2SF (_minmod_slope_kernel 1 1 0x1.47ae147ae147bp-7 1) = S754_zero true.
Proof. reflexivity. Qed.

(** *** Comparisons *)

Lemma SFcompare_refl (x : spec_float) :
  x <> S754_nan -> SFcompare x x = Some Eq.
Proof.
  destruct x as [s | s | | s m e]; cbn; intros Hx; try congruence.
  - now destruct s.
  - rewrite Z.compare_refl, Pos.compare_cont_refl. now destruct s.
Qed.


Lemma is_number_not_nan (x : float) :
  F64.is_number x = true -> PrimFloat.is_nan x = false.
Proof.
  unfold F64.is_number, PrimFloat.is_nan. rewrite FloatAxioms.eqb_spec.
  unfold SFeqb. intros Hx. rewrite SFcompare_refl; [reflexivity |].
  intros E. now rewrite E in Hx.
Qed.

Lemma not_nan_spec (x : float) :
  PrimFloat.is_nan x = false -> Prim2SF x <> S754_nan.
Proof.
  unfold PrimFloat.is_nan. rewrite FloatAxioms.eqb_spec. unfold SFeqb.
  intros Hx E. rewrite E in Hx. discriminate.
Qed.

Lemma nan_spec (x : float) :
  PrimFloat.is_nan x = true -> Prim2SF x = S754_nan.
Proof.
  unfold PrimFloat.is_nan. rewrite FloatAxioms.eqb_spec. unfold SFeqb.
  intros Hx. destruct (Prim2SF x) as [s | s | | s m e] eqn:E;
    [| | reflexivity |];
    rewrite SFcompare_refl in Hx by discriminate; discriminate.
Qed.



(** *** [fmin] and [fmax] *)

Lemma fmin_cases (x th : float) :
  PrimFloat.is_nan th = false ->
  F64.fmin x th = th \/
  (F64.fmin x th = x /\ PrimFloat.is_nan x = false /\ (th <? x) = false).
Proof.
  intros Nth. unfold F64.fmin.
  destruct (PrimFloat.is_nan x) eqn:Nx; [now left |]. rewrite Nth.
  destruct (th <? x) eqn:L; [now left |].
  destruct (x <? th); [now right |].
  destruct (F64.is_neg_zero th); [now left | now right].
Qed.

Lemma fmax_zero_cases (q : float) :
  F64.fmax q 0 = 0 \/
  (F64.fmax q 0 = q /\ PrimFloat.is_nan q = false /\ (q <? 0) = false).
Proof.
  unfold F64.fmax.
  destruct (PrimFloat.is_nan q) eqn:Nq; [now left |].
  change (PrimFloat.is_nan 0) with false. cbv iota.
  destruct (q <? 0) eqn:L; [now left |].
  destruct (0 <? q); [now right |].
  destruct (F64.is_neg_zero q); [now left | now right].
Qed.

(** The forward difference of two equal numbers is [+0]. *)
Lemma sub_self (x : float) : F64.is_number x = true -> x - x = 0.
Proof.
  intros Hx. apply Prim2SF_inj. rewrite FloatAxioms.sub_spec.
  unfold F64.is_number in Hx.
  destruct (Prim2SF x) as [s | s | | s m e]; try discriminate.
  - now destruct s.
  - unfold SF64sub, SFsub. cbv zeta. rewrite Z.sub_diag. reflexivity.
Qed.


Lemma limiter_is_number (x th : float) :
  F64.is_number th = true ->
  F64.is_number (F64.fmax (F64.fmin x th) 0) = true.
Proof.
  intros Hth. pose proof (@is_number_not_nan th Hth) as Nth.
  destruct (fmax_zero_cases (F64.fmin x th)) as [-> | (-> & Nq & L0)];
    [reflexivity |].
  destruct (@fmin_cases x th Nth) as [-> | (E & Nx & L)]; [exact Hth |].
  rewrite E in *. clear E.
  apply not_nan_spec in Nx. rewrite FloatAxioms.ltb_spec in L, L0.
  unfold F64.is_number in *. unfold SFltb in *.
  change (Prim2SF 0) with (S754_zero false) in L0.
  destruct (Prim2SF x) as [s | s | | s m e];
    try reflexivity; try congruence.
  destruct s.
  - cbn in L0. discriminate.
  - destruct (Prim2SF th) as [s' | s' | | s' m' e'];
      try discriminate; cbn in L; discriminate.
Qed.

(** *** Signs through rounding *)

(** Rounding to binary64 keeps the sign: the result is below zero only if
    the sign bit was set. *)
Lemma round_sign (s : bool) (m e : Z) (l : location) :
  SFltb (binary_round_aux prec emax s m e l) (S754_zero false) = true ->
  s = true.
Proof.
  unfold binary_round_aux.
  destruct (shr_fexp prec emax m e l) as [r1 e1].
  destruct (shr_fexp prec emax _ e1 loc_Exact) as [r2 e2].
  destruct (shr_m r2) as [| p | p]; [| destruct (e2 <=? emax - prec)%Z |];
    destruct s; cbn; congruence.
Qed.




(** A number times [+0], halved, is a zero. *)
Lemma number_times_zero (p : float) :
  F64.is_number p = true ->
  exists sgn, Prim2SF (p * 0 / 2) = S754_zero sgn.
Proof.
  intros Hp. rewrite FloatAxioms.div_spec, FloatAxioms.mul_spec.
  unfold F64.is_number in Hp.
  change (Prim2SF 0) with (S754_zero false).
  change (Prim2SF 2) with (S754_finite false 4503599627370496 (-51)).
  destruct (Prim2SF p) as [s | s | | s m e]; try discriminate; cbn; eauto.
Qed.

(** *** The limiter *)


(** X19.  On binary64, whenever the centre value and its downstream neighbour
    are the same number and [theta] is a number, the kernel returns a zero,
    whatever the upstream value. *)
Theorem f64_slope_zero_denominator (s1 s2 th : float) :
  F64.is_number s2 = true -> F64.is_number th = true ->
  exists sgn, Prim2SF (_minmod_slope_kernel s1 s2 s2 th) = S754_zero sgn.
Proof.
  intros H2 Hth. unfold _minmod_slope_kernel.
  cbn [sub add mul div fmin fmax lit0 lit1 lit2 float_Scalar].
  rewrite (@sub_self s2 H2).
  apply number_times_zero. now apply limiter_is_number.
Qed.

(** *** Depths *)

Lemma f64_rounding_not_negative (c tl : float) :
  (0 <=? tl) = true ->
  (_fix_rounding_err_kernel c tl c <? 0) = false.
Proof.
  intros Ht. unfold _fix_rounding_err_kernel.
  cbn [ltb lit0 float_Scalar].
  destruct (c <? tl) eqn:E; [reflexivity |].
  rewrite FloatAxioms.ltb_spec in *. rewrite FloatAxioms.leb_spec in Ht.
  unfold SFltb, SFleb in *.
  change (Prim2SF 0) with (S754_zero false) in *.
  destruct (Prim2SF c) as [s | s | | s m e],
           (Prim2SF tl) as [s' | s' | | s' m' e'];
    try destruct s; try destruct s'; cbn in *; congruence.
Qed.

(** What the rounding fix leaves is zero, or the depth it was given where
    that is not below [tol]; with [tol >= 0] it is NaN or at least zero. *)
Lemma f64_rounding_range (c tl : float) :
  (0 <=? tl) = true ->
  let h := _fix_rounding_err_kernel c tl c in
  PrimFloat.is_nan h = true \/ (0 <=? h) = true.
Proof.
  intros Ht h. subst h. unfold _fix_rounding_err_kernel.
  cbn [ltb lit0 float_Scalar].
  destruct (c <? tl) eqn:E; [now right |].
  destruct (PrimFloat.is_nan c) eqn:Nc; [now left | right].
  apply not_nan_spec in Nc.
  rewrite FloatAxioms.ltb_spec in E. rewrite FloatAxioms.leb_spec in *.
  unfold SFltb, SFleb in *.
  change (Prim2SF 0) with (S754_zero false) in *.
  destruct (Prim2SF c) as [s | s | | s m e],
           (Prim2SF tl) as [s' | s' | | s' m' e'];
    try destruct s; try destruct s'; cbn in *; congruence.
Qed.

(** C2, as the code has it.  On binary64, with [tol >= 0]: after the call
    no depth of the four face-depth arrays is below zero, for any input;
    each is NaN or at least zero, being zero where the corrected depth is
    below [tol] and the corrected depth elsewhere.  The cell-centre depth
    [H] is the difference computed at the start and goes through no
    clamp. *)
Theorem face_depths_not_negative (states : States float) runtime config
  d j i :
  (0 <=? tol runtime) = true ->
  let c := corrected states runtime config in
  let r := fst (reconstruct states runtime config) in
  (fU r d 0%Z j i <? 0) = false /\
  (PrimFloat.is_nan (fU r d 0%Z j i) = true \/ (0 <=? fU r d 0%Z j i) = true)
  /\
  fU r d 0%Z j i =
    (if fU c d 0%Z j i <? tol runtime then 0 else fU c d 0%Z j i) /\
  H r j i =
    (Q states 0%Z (ybg states + j)%Z (xbg states + i)%Z
     - centers (topo runtime) j i)%S.
Proof.
  intros Ht. cbv zeta. rewrite reconstruct_depth. unfold depths_fixed.
  rewrite fix_rounding_errors_fU.
  split; [now apply f64_rounding_not_negative |].
  split; [now apply f64_rounding_range |].
  split; [reflexivity |]. apply reconstruct_H.
Qed.

(** X20.  On binary64, with [tol >= 0], no face depth is negative after the
    call. *)
Theorem f64_face_depths_not_negative (states : States float) runtime config
  d j i :
  (0 <=? tol runtime) = true ->
  (fU (fst (reconstruct states runtime config)) d 0%Z j i <? 0) = false.
Proof.
  intros Ht. rewrite reconstruct_depth. unfold depths_fixed.
  rewrite fix_rounding_errors_fU. now apply f64_rounding_not_negative.
Qed.

End Binary64.

(** ** The binary64 samples run through the code *)

Section Binary64Samples.

(** The shoreline scenario on binary64 gives what it gives in exact
    arithmetic: cell 3 ends the correction with twice its depth on the left
    and zero on the right, their mean being its depth; the dry face has zero
    velocity and a surface elevation equal to its depth; the centre depth
    of the last cell is negative and below [tol] after the call, and [U]
    holds its old 7. *)
Example float_shoreline_scenario :
  let u := uncorrected f64_shoreline f64_flat_bed f64_shoreline_config in
  let c := corrected f64_shoreline f64_flat_bed f64_shoreline_config in
  let r := fst (reconstruct f64_shoreline f64_flat_bed f64_shoreline_config)
  in
  fires u dir_x 0 3 = true /\
  (hl c dir_x 0 3, hr c dir_x 0 3) = (0x1.47ae147ae147bp-6, 0)%float /\
  average (hl c dir_x 0 3) (hr c dir_x 0 3) = H u 0 3 /\
  (fU r xm 0 0 4, fU r xm 1 0 4, fU r xm 2 0 4, fQ r xm 0 0 4)
    = (0, 0, 0, 0)%float /\
  H r 0 4 = (-0.5)%float /\
  (H r 0 4 <? lit0)%S = true /\
  (H r 0 4 <? tol f64_flat_bed)%S = true /\
  U r 1 0 0 = 7%float.
Proof. cbv zeta. repeat split; vm_compute; reflexivity. Qed.





Lemma face_depths_not_negative_witness :
  let c := corrected f64_shoreline f64_flat_bed f64_shoreline_config in
  let r := fst (reconstruct f64_shoreline f64_flat_bed f64_shoreline_config)
  in
  (fU r xm 0%Z 0%Z 5%Z <? 0)%float = false /\
  (PrimFloat.is_nan (fU r xm 0 0 5) = true \/
   (0 <=? fU r xm 0%Z 0%Z 5%Z)%float = true) /\
  fU r xm 0 0 5 =
    (if (fU c xm 0%Z 0%Z 5%Z <? tol f64_flat_bed)%float then 0%float
     else fU c xm 0 0 5) /\
  H r 0 5 =
    (Q f64_shoreline 0 (ybg f64_shoreline + 0)%Z (xbg f64_shoreline + 5)%Z
     - centers (topo f64_flat_bed) 0 5)%S.
Proof.
  refine (@face_depths_not_negative f64_shoreline f64_flat_bed
            f64_shoreline_config xm 0 5 _).
  reflexivity.
Defined.

End Binary64Samples.

(** * Symmetries, invariances and the call as a whole *)

(** ** The limiter in exact arithmetic *)

(** Goals over canonical rationals, mapped to [Q] with the numerals
    evaluated. *)
Ltac to_Q2 :=
  XRFacts.to_Q;
  change (this 1%Qc) with 1%Q in *; change (this 0%Qc) with 0%Q in *;
  unfold Qdiv in *; change (/ 2)%Q with (1 # 2)%Q in *;
  change (/ 4)%Q with (1 # 4)%Q in *.

Section Limiter.

Import XRFacts.
Local Open Scope Qc_scope.

Lemma sub_eq_zero (a b : Qc) : a - b = 0 -> a = b.
Proof.
  intros E. assert (E' : (a - b) + b = 0 + b) by now rewrite E.
  ring_simplify in E'. exact E'.
Qed.

(** Away from a zero forward difference every step of the kernel is finite
    arithmetic. *)
Lemma minmod_slope_value (s1 s2 s3 th : Qc) :
  s3 <> s2 ->
  _minmod_slope_kernel (Fin s1) (Fin s2) (Fin s3) (Fin th) =
  Fin (clamped ((s2 - s1) / (s3 - s2)) th * (s3 - s2) / Q2Qc 2).
Proof.
  intros Hd. unfold _minmod_slope_kernel, clamped.
  cbn [sub add mul div fmin fmax lit0 lit1 lit2 xrat_Scalar].
  rewrite !sub_fin. rewrite div_fin.
  - cbn [XR.mul XR.add]. rewrite div_two, !fmin_fin, fmax_fin.
    cbn [XR.mul]. now rewrite div_two.
  - intros E. apply Hd. now apply sub_eq_zero.
Qed.

(** X4.  A profile and its reflection about zero get opposite slopes. *)
Theorem minmod_negation (s1 s2 s3 th : Qc) :
  _minmod_slope_kernel (Fin (- s1)) (Fin (- s2)) (Fin (- s3)) (Fin th) =
  XR.neg (_minmod_slope_kernel (Fin s1) (Fin s2) (Fin s3) (Fin th)).
Proof.
  destruct (Qc_eq_dec s3 s2) as [E | N].
  - subst s3.
    destruct (minmod_slope_fin s1 s2 s2 th) as (p & Ep & _).
    destruct (minmod_slope_fin (- s1) (- s2) (- s2) th) as (p' & Ep' & _).
    rewrite Ep, Ep'. cbn [XR.neg]. f_equal. field. discriminate.
  - assert (N' : - s3 <> - s2).
    { intros E. apply N. rewrite <- (Qcopp_involutive s3), E.
      apply Qcopp_involutive. }
    assert (Hd : s3 - s2 <> 0) by (intros E; apply N; now apply sub_eq_zero).
    rewrite (minmod_slope_value _ _ N), (minmod_slope_value _ _ N').
    assert (Hd' : - s3 - - s2 <> 0).
    { intros E. apply Hd. replace (s3 - s2) with (- (- s3 - - s2)) by ring.
      rewrite E. ring. }
    replace ((- s2 - - s1) / (- s3 - - s2)) with ((s2 - s1) / (s3 - s2))
      by (field; auto).
    cbn [XR.neg]. f_equal. field. discriminate.
Qed.

End Limiter.

(** ** The call as a whole, for every element type *)

Section Call.

Context {T : Type} `{Scalar T}.
Local Open Scope scalar_scope.

Implicit Types (states s : States T) (runtime : Runtime T)
  (config : Config T) (d : side) (dir : direction) (j i k : Z).

(** The momenta the velocity kernel reads are the extrapolated ones. *)
Lemma depths_fixed_fQ states runtime config :
  fQ (depths_fixed states runtime config) =
  fQ (get_face_conservatives (theta (params config)) states).
Proof.
  unfold depths_fixed, corrected, uncorrected.
  now rewrite fix_rounding_errors_fQ, fix_neg_depths_y_fQ,
    fix_neg_depths_x_fQ, get_depths_fQ.
Qed.

Lemma reconstruct_velocity_components states runtime config d j i :
  let pre := depths_fixed states runtime config in
  let r := fst (reconstruct states runtime config) in
  let uv := _recnstrt_face_vel_kernel (fU pre d 0%Z j i) (fQ pre d 1%Z j i)
              (fQ pre d 2%Z j i) (drytol (params config)) in
  fU r d 1%Z j i = fst uv /\ fU r d 2%Z j i = snd uv.
Proof.
  cbv zeta. unfold reconstruct. cbn [fst]. rewrite recombine_fU.
  rewrite get_face_velocities_u, get_face_velocities_v.
  split; reflexivity.
Qed.

Lemma reconstruct_conservatives states runtime config d j i :
  let r := fst (reconstruct states runtime config) in
  fQ r d 0%Z j i = fU r d 0%Z j i + ftopo (topo runtime) d j i /\
  fQ r d 1%Z j i = fU r d 0%Z j i * fU r d 1%Z j i /\
  fQ r d 2%Z j i = fU r d 0%Z j i * fU r d 2%Z j i.
Proof.
  cbv zeta. unfold reconstruct. cbn [fst].
  rewrite recombine_w, recombine_hu, recombine_hv, recombine_fU. auto.
Qed.

Lemma rounding_of_zero (tl : T) :
  _fix_rounding_err_kernel lit0 tl lit0 = lit0.
Proof. unfold _fix_rounding_err_kernel. now destruct (lit0 <? tl). Qed.

(** The final pair of a cell is the corrected pair, through the rounding
    fix. *)
Lemma final_pair states runtime config dir j i :
  let c := corrected states runtime config in
  let r := fst (reconstruct states runtime config) in
  hl r dir j i =
    _fix_rounding_err_kernel (hl c dir j i) (tol runtime) (hl c dir j i) /\
  hr r dir j i =
    _fix_rounding_err_kernel (hr c dir j i) (tol runtime) (hr c dir j i).
Proof.
  cbv zeta. unfold hl, hr.
  destruct dir; rewrite !reconstruct_depth; unfold depths_fixed;
    rewrite !fix_rounding_errors_fU; auto.
Qed.

Lemma uncorrected_H states runtime config j i :
  H (uncorrected states runtime config) j i =
  H (fst (reconstruct states runtime config)) j i.
Proof.
  rewrite reconstruct_H. unfold uncorrected. now rewrite get_depths_H.
Qed.

Lemma uncorrected_inputs states runtime config :
  same_inputs states (uncorrected states runtime config).
Proof.
  unfold uncorrected.
  eapply same_inputs_trans; [apply get_face_conservatives_inputs |].
  apply get_depths_inputs.
Qed.

Lemma interior_cell_inputs s s' j i :
  same_inputs s s' -> interior_cell s j i -> interior_cell s' j i.
Proof.
  intros Hs. unfold interior_cell.
  now rewrite (same_inputs_nx Hs), (same_inputs_ny Hs).
Qed.

(** *** The corrected pair through the rounding fix *)

(** X13.  For every element type, at an interior cell where the correction
    fires along a direction, the call returns a zero on the side the kernel
    found negative first; on the other side it returns twice the centre
    depth it returns, as the element type computes the product, or a zero
    where that product is below [tol]. *)
Theorem fired_pair_after_call states runtime config dir j i :
  interior_cell states j i ->
  fires (uncorrected states runtime config) dir j i = true ->
  let u := uncorrected states runtime config in
  let r := fst (reconstruct states runtime config) in
  let kept :=
    if H r j i * lit2 <? tol runtime then lit0 else H r j i * lit2 in
  hl r dir j i = (if hl u dir j i <? lit0 then lit0 else kept) /\
  hr r dir j i = (if hl u dir j i <? lit0 then kept else lit0).
Proof.
  intros Hc Hf. cbv zeta.
  pose proof (interior_cell_inputs
                (uncorrected_inputs states runtime config) Hc) as Hc'.
  destruct (fired_pair dir Hc' Hf) as [E1 E2].
  destruct (final_pair states runtime config dir j i) as [El Er].
  unfold corrected in El, Er.
  rewrite <- (uncorrected_H states runtime config j i).
  rewrite El, Er, E1, E2.
  destruct (hl (uncorrected states runtime config) dir j i <? lit0);
    rewrite rounding_of_zero; unfold _fix_rounding_err_kernel;
    split; reflexivity.
Qed.

(** *** What the outputs depend on *)

Lemma same_Q_of_inputs s s' : same_inputs s s' -> same_Q s s'.
Proof. intros (A & B & C & _). now repeat split. Qed.

Lemma same_Q_faces th s s' d k j i :
  same_Q s s' ->
  fQ (get_face_conservatives th s') d k j i =
  fQ (get_face_conservatives th s) d k j i.
Proof.
  intros (Hn & Hs & HQ).
  destruct d;
    rewrite ?get_face_conservatives_xm, ?get_face_conservatives_xp,
      ?get_face_conservatives_ym, ?get_face_conservatives_yp;
    unfold slpx, slpy, view3, view, xbg, ybg; now rewrite Hn, HQ.
Qed.

Lemma same_Q_uncorrected s s' runtime config :
  same_Q s s' ->
  depths_agree (uncorrected s runtime config) (uncorrected s' runtime config).
Proof.
  intros HsQ. pose proof HsQ as (Hn & Hs & HQ).
  repeat split.
  - rewrite (same_inputs_nx (uncorrected_inputs s' runtime config)).
    rewrite (same_inputs_nx (uncorrected_inputs s runtime config)).
    unfold nx. now rewrite Hn, Hs.
  - rewrite (same_inputs_ny (uncorrected_inputs s' runtime config)).
    rewrite (same_inputs_ny (uncorrected_inputs s runtime config)).
    unfold ny. now rewrite Hn, Hs.
  - intros j i. rewrite !uncorrected_H, !reconstruct_H.
    unfold xbg, ybg. now rewrite Hn, HQ.
  - intros d j i. unfold uncorrected. rewrite !get_depths_fU. f_equal.
    now apply same_Q_faces.
Qed.

Lemma depths_agree_x s s' :
  depths_agree s s' ->
  depths_agree (fix_neg_depths_x s) (fix_neg_depths_x s').
Proof.
  intros (Hx & Hy & HH & HU). repeat split.
  - now rewrite (same_inputs_nx (fix_neg_depths_x_inputs s)),
      (same_inputs_nx (fix_neg_depths_x_inputs s')).
  - now rewrite (same_inputs_ny (fix_neg_depths_x_inputs s)),
      (same_inputs_ny (fix_neg_depths_x_inputs s')).
  - intros j i. now rewrite !fix_neg_depths_x_H.
  - intros d j i. destruct d.
    + rewrite !fix_neg_depths_x_xm. cbv zeta.
      unfold set_col, set_cols, view. now rewrite Hx, !HH, !HU.
    + rewrite !fix_neg_depths_x_xp. cbv zeta.
      unfold set_col, set_cols, view. now rewrite Hx, !HH, !HU.
    + now rewrite !fix_neg_depths_x_ym.
    + now rewrite !fix_neg_depths_x_yp.
Qed.

Lemma depths_agree_y s s' :
  depths_agree s s' ->
  depths_agree (fix_neg_depths_y s) (fix_neg_depths_y s').
Proof.
  intros (Hx & Hy & HH & HU). repeat split.
  - now rewrite (same_inputs_nx (fix_neg_depths_y_inputs s)),
      (same_inputs_nx (fix_neg_depths_y_inputs s')).
  - now rewrite (same_inputs_ny (fix_neg_depths_y_inputs s)),
      (same_inputs_ny (fix_neg_depths_y_inputs s')).
  - intros j i. now rewrite !fix_neg_depths_y_H.
  - intros d j i. destruct d.
    + now rewrite !fix_neg_depths_y_xm.
    + now rewrite !fix_neg_depths_y_xp.
    + rewrite !fix_neg_depths_y_ym. cbv zeta.
      unfold set_row, set_rows, view. now rewrite Hy, !HH, !HU.
    + rewrite !fix_neg_depths_y_yp. cbv zeta.
      unfold set_row, set_rows, view. now rewrite Hy, !HH, !HU.
Qed.

Lemma agree_depths_fixed s s' runtime runtime' config config' d j i :
  tol runtime' = tol runtime ->
  depths_agree (uncorrected s runtime config)
    (uncorrected s' runtime' config') ->
  fU (depths_fixed s' runtime' config') d 0%Z j i =
  fU (depths_fixed s runtime config) d 0%Z j i.
Proof.
  intros Ht Hu. unfold depths_fixed. rewrite !fix_rounding_errors_fU.
  pose proof (depths_agree_y (depths_agree_x Hu)) as (_ & _ & _ & HU).
  unfold corrected. now rewrite HU, Ht.
Qed.

(** Past the rounding fix every face is treated on its own: two faces, of
    two calls, that hold the same depth and the same extrapolated momenta
    at that point get the same depth, velocities and momenta, under the
    same [drytol]. *)
Lemma final_stage_pointwise s s' runtime runtime' config config'
  d d' j j' i i' :
  drytol (params config') = drytol (params config) ->
  fU (depths_fixed s' runtime' config') d' 0%Z j' i' =
  fU (depths_fixed s runtime config) d 0%Z j i ->
  (forall k, (1 <= k <= 2)%Z ->
     fQ (get_face_conservatives (theta (params config')) s') d' k j' i' =
     fQ (get_face_conservatives (theta (params config)) s) d k j i) ->
  let r := fst (reconstruct s runtime config) in
  let r' := fst (reconstruct s' runtime' config') in
  (forall k, (0 <= k <= 2)%Z -> fU r' d' k j' i' = fU r d k j i) /\
  (forall k, (1 <= k <= 2)%Z -> fQ r' d' k j' i' = fQ r d k j i).
Proof.
  intros Hd Hh Hm. cbv zeta.
  assert (E0 : fU (fst (reconstruct s' runtime' config')) d' 0%Z j' i' =
               fU (fst (reconstruct s runtime config)) d 0%Z j i).
  { rewrite !reconstruct_depth. exact Hh. }
  destruct (reconstruct_velocity_components s runtime config d j i)
    as [Eu Ev].
  destruct (reconstruct_velocity_components s' runtime' config' d' j' i')
    as [Eu' Ev'].
  rewrite !depths_fixed_fQ in Eu, Ev, Eu', Ev'.
  rewrite Hh in Eu', Ev'.
  rewrite (Hm 1%Z), (Hm 2%Z), Hd in Eu', Ev' by lia.
  rewrite <- Eu in Eu'. rewrite <- Ev in Ev'.
  destruct (reconstruct_conservatives s runtime config d j i)
    as (_ & Ehu & Ehv).
  destruct (reconstruct_conservatives s' runtime' config' d' j' i')
    as (_ & Ehu' & Ehv').
  split; intros k Hk.
  - assert (Hcases : (k = 0 \/ k = 1 \/ k = 2)%Z) by lia.
    destruct Hcases as [-> | [-> | ->]]; [exact E0 | exact Eu' | exact Ev'].
  - assert (Hcases : (k = 1 \/ k = 2)%Z) by lia.
    destruct Hcases as [-> | ->].
    + rewrite Ehu, Ehu', E0, Eu'. reflexivity.
    + rewrite Ehv, Ehv', E0, Ev'. reflexivity.
Qed.

(** Two calls whose uncorrected depths and extrapolated momenta agree, under
    the same tolerances, give the same face depths, velocities and
    momenta. *)
Lemma agree_reconstruct s s' runtime runtime' config config' d j i :
  tol runtime' = tol runtime ->
  drytol (params config') = drytol (params config) ->
  depths_agree (uncorrected s runtime config)
    (uncorrected s' runtime' config') ->
  (forall k, (1 <= k <= 2)%Z ->
     fQ (get_face_conservatives (theta (params config')) s') d k j i =
     fQ (get_face_conservatives (theta (params config)) s) d k j i) ->
  let r := fst (reconstruct s runtime config) in
  let r' := fst (reconstruct s' runtime' config') in
  (forall k, (0 <= k <= 2)%Z -> fU r' d k j i = fU r d k j i) /\
  (forall k, (1 <= k <= 2)%Z -> fQ r' d k j i = fQ r d k j i).
Proof.
  intros Ht Hd Hu Hm.
  exact (@final_stage_pointwise s s' runtime runtime' config config'
           d d j j i i Hd (agree_depths_fixed d j i Ht Hu) Hm).
Qed.

Lemma same_Q_reconstruct s s' runtime config :
  same_Q s s' ->
  let r := fst (reconstruct s runtime config) in
  let r' := fst (reconstruct s' runtime config) in
  (forall j i, H r' j i = H r j i) /\
  (forall d k j i, (0 <= k <= 2)%Z ->
     fU r' d k j i = fU r d k j i /\ fQ r' d k j i = fQ r d k j i).
Proof.
  intros HsQ. cbv zeta. pose proof HsQ as (Hn & Hs & HQ). split.
  - intros j i. rewrite !reconstruct_H. unfold xbg, ybg. now rewrite Hn, HQ.
  - intros d k j i Hk.
    destruct (@agree_reconstruct s s' runtime runtime config config d j i
                eq_refl eq_refl (same_Q_uncorrected runtime config HsQ)
                (fun k _ => same_Q_faces (theta (params config)) d k j i HsQ))
      as [HU HQ'].
    split; [now apply HU |].
    assert (Hcases : (k = 0 \/ 1 <= k <= 2)%Z) by lia.
    destruct Hcases as [-> | Hk']; [| now apply HQ'].
    destruct (reconstruct_conservatives s runtime config d j i)
      as (Ew & _).
    destruct (reconstruct_conservatives s' runtime config d j i)
      as (Ew' & _).
    rewrite Ew, Ew', (HU 0%Z) by lia. reflexivity.
Qed.

(** X7.  The outputs are a function of [Q], its shape, the ghost-cell count,
    the topography and the three parameters: what [H], the face buffers and [U]
    held before the call has no influence on any entry the call writes. *)
Theorem reconstruct_ignores_stale_buffers s s' runtime config :
  ngh s' = ngh s -> Q_shape s' = Q_shape s -> Q s' = Q s ->
  let r := fst (reconstruct s runtime config) in
  let r' := fst (reconstruct s' runtime config) in
  (forall j i, H r' j i = H r j i) /\
  (forall d k j i, (0 <= k <= 2)%Z ->
     fU r' d k j i = fU r d k j i /\ fQ r' d k j i = fQ r d k j i).
Proof.
  intros Hn Hs HQ. apply same_Q_reconstruct. now repeat split.
Qed.

(** X8.  A second call on the state the first one returns changes nothing: [H]
    and the three components of every face buffer come out as the first call
    left them. *)
Theorem reconstruct_idempotent states runtime config :
  let r := fst (reconstruct states runtime config) in
  let r2 := fst (reconstruct r runtime config) in
  (forall j i, H r2 j i = H r j i) /\
  (forall d k j i, (0 <= k <= 2)%Z ->
     fU r2 d k j i = fU r d k j i /\ fQ r2 d k j i = fQ r d k j i).
Proof.
  cbv zeta.
  exact (same_Q_reconstruct runtime config
           (same_Q_of_inputs (reconstruct_inputs states runtime config))).
Qed.

(** X9.  The two correction blocks can run in either order: the x block reads
    and writes the x face depths only, the y block the y face depths only, and
    neither writes [H]. *)
Theorem correction_blocks_commute s d :
  fU (fix_neg_depths_y (fix_neg_depths_x s)) d 0%Z =
  fU (fix_neg_depths_x (fix_neg_depths_y s)) d 0%Z /\
  H (fix_neg_depths_y (fix_neg_depths_x s)) =
  H (fix_neg_depths_x (fix_neg_depths_y s)).
Proof.
  split.
  - destruct d.
    + rewrite fix_neg_depths_y_xm, !fix_neg_depths_x_xm.
      rewrite fix_neg_depths_y_H, fix_neg_depths_y_xm, fix_neg_depths_y_xp.
      reflexivity.
    + rewrite fix_neg_depths_y_xp, !fix_neg_depths_x_xp.
      rewrite fix_neg_depths_y_H, fix_neg_depths_y_xm, fix_neg_depths_y_xp.
      reflexivity.
    + rewrite fix_neg_depths_x_ym, !fix_neg_depths_y_ym.
      rewrite fix_neg_depths_x_H, fix_neg_depths_x_ym, fix_neg_depths_x_yp.
      reflexivity.
    + rewrite fix_neg_depths_x_yp, !fix_neg_depths_y_yp.
      rewrite fix_neg_depths_x_H, fix_neg_depths_x_ym, fix_neg_depths_x_yp.
      reflexivity.
  - now rewrite fix_neg_depths_y_H, !fix_neg_depths_x_H, fix_neg_depths_y_H.
Qed.

(** X10.  The rounding fix is idempotent: run a second time with the same [tol]
    it changes no face depth. *)
Theorem rounding_fix_idempotent (tl : T) s d j i :
  fU (fix_rounding_errors tl (fix_rounding_errors tl s)) d 0%Z j i =
  fU (fix_rounding_errors tl s) d 0%Z j i.
Proof.
  rewrite !fix_rounding_errors_fU. unfold _fix_rounding_err_kernel.
  destruct (fU s d 0%Z j i <? tl) eqn:E.
  - now destruct (lit0 <? tl).
  - now rewrite E.
Qed.

(** *** The two axes *)

Lemma transposed_faces th s d k j i :
  fQ (get_face_conservatives th (transpose_states s)) d k j i =
  fQ (get_face_conservatives th s) (swap_side d) k i j.
Proof.
  destruct d; cbn [swap_side];
    rewrite ?get_face_conservatives_xm, ?get_face_conservatives_xp,
      ?get_face_conservatives_ym, ?get_face_conservatives_yp;
    unfold slpx, slpy, view3, view, xbg, ybg;
    cbn [Q ngh transpose_states]; unfold transpose2; reflexivity.
Qed.

Lemma transposed_uncorrected s runtime config :
  depths_transposed (uncorrected s runtime config)
    (uncorrected (transpose_states s) (transpose_runtime runtime) config).
Proof.
  split; [| split; [| split]].
  - rewrite (same_inputs_nx (uncorrected_inputs _ _ _)).
    rewrite (same_inputs_ny (uncorrected_inputs s runtime config)).
    reflexivity.
  - rewrite (same_inputs_ny (uncorrected_inputs _ _ _)).
    rewrite (same_inputs_nx (uncorrected_inputs s runtime config)).
    reflexivity.
  - intros j i. rewrite !uncorrected_H, !reconstruct_H. reflexivity.
  - intros d j i. unfold uncorrected. rewrite !get_depths_fU.
    rewrite transposed_faces. now destruct d.
Qed.

Lemma transposed_corrected s s' :
  depths_transposed s s' ->
  depths_transposed (fix_neg_depths_y (fix_neg_depths_x s))
    (fix_neg_depths_y (fix_neg_depths_x s')).
Proof.
  intros (Hx & Hy & HH & HU).
  assert (Ex : forall s, nx (fix_neg_depths_y (fix_neg_depths_x s)) = nx s)
    by reflexivity.
  assert (Ey : forall s, ny (fix_neg_depths_y (fix_neg_depths_x s)) = ny s)
    by reflexivity.
  split; [| split; [| split]].
  - now rewrite !Ex, !Ey.
  - now rewrite !Ex, !Ey.
  - intros j i. now rewrite !corrected_H.
  - intros d j i. destruct d; cbn [swap_side].
    + rewrite fix_neg_depths_y_xm, fix_neg_depths_x_xm.
      rewrite fix_neg_depths_y_ym.
      rewrite fix_neg_depths_x_H, fix_neg_depths_x_ym, fix_neg_depths_x_yp.
      cbv zeta. unfold set_col, set_cols, set_row, set_rows, view.
      change (ny (fix_neg_depths_x s)) with (ny s).
      rewrite Hx, !HH, !HU. cbn [swap_side].
      rewrite ?Z.add_0_l. reflexivity.
    + rewrite fix_neg_depths_y_xp, fix_neg_depths_x_xp.
      rewrite fix_neg_depths_y_yp.
      rewrite fix_neg_depths_x_H, fix_neg_depths_x_ym, fix_neg_depths_x_yp.
      cbv zeta. unfold set_col, set_cols, set_row, set_rows, view.
      change (ny (fix_neg_depths_x s)) with (ny s).
      rewrite Hx, !HH, !HU. cbn [swap_side].
      rewrite ?Z.add_0_l. reflexivity.
    + rewrite fix_neg_depths_y_ym.
      rewrite fix_neg_depths_x_H, fix_neg_depths_x_ym, fix_neg_depths_x_yp.
      rewrite fix_neg_depths_y_xm, fix_neg_depths_x_xm.
      cbv zeta. unfold set_col, set_cols, set_row, set_rows, view.
      change (ny (fix_neg_depths_x s')) with (ny s').
      rewrite Hy, !HH, !HU. cbn [swap_side].
      rewrite ?Z.add_0_l. reflexivity.
    + rewrite fix_neg_depths_y_yp.
      rewrite fix_neg_depths_x_H, fix_neg_depths_x_ym, fix_neg_depths_x_yp.
      rewrite fix_neg_depths_y_xp, fix_neg_depths_x_xp.
      cbv zeta. unfold set_col, set_cols, set_row, set_rows, view.
      change (ny (fix_neg_depths_x s')) with (ny s').
      rewrite Hy, !HH, !HU. cbn [swap_side].
      rewrite ?Z.add_0_l. reflexivity.
Qed.

(** X11.  The call treats the two axes alike: on the problem with the axes
    exchanged it returns the outputs of the original problem with the axes
    exchanged, the x face buffers holding what the y face buffers hold in the
    original. The second correction block, headed like the first in the source,
    does along y what the first does along x. *)
Theorem reconstruct_transposed states runtime config :
  let r := fst (reconstruct states runtime config) in
  let r' := fst (reconstruct (transpose_states states)
                   (transpose_runtime runtime) config) in
  (forall j i, H r' j i = H r i j) /\
  (forall d k j i, (0 <= k <= 2)%Z ->
     fU r' d k j i = fU r (swap_side d) k i j /\
     fQ r' d k j i = fQ r (swap_side d) k i j).
Proof.
  cbv zeta. split.
  - intros j i. rewrite !reconstruct_H. reflexivity.
  - intros d k j i Hk.
    pose proof (transposed_corrected
                  (transposed_uncorrected states runtime config))
      as (_ & _ & _ & HU).
    assert (Hh : fU (depths_fixed (transpose_states states)
                       (transpose_runtime runtime) config) d 0%Z j i =
                 fU (depths_fixed states runtime config)
                    (swap_side d) 0%Z i j).
    { unfold depths_fixed. rewrite !fix_rounding_errors_fU.
      unfold corrected. now rewrite HU. }
    destruct (@final_stage_pointwise states (transpose_states states)
                runtime (transpose_runtime runtime) config config
                (swap_side d) d i j j i eq_refl Hh
                (fun k _ => transposed_faces (theta (params config))
                              states d k j i))
      as [HA HB].
    split; [now apply HA |].
    assert (Hcases : (k = 0 \/ 1 <= k <= 2)%Z) by lia.
    destruct Hcases as [-> | Hk']; [| now apply HB].
    destruct (reconstruct_conservatives states runtime config
                (swap_side d) i j) as (Ew & _).
    destruct (reconstruct_conservatives (transpose_states states)
                (transpose_runtime runtime) config d j i) as (Ew' & _).
    rewrite Ew, Ew', (HA 0%Z) by lia. now destruct d.
Qed.

(** *** Depths that are not negative stay so *)

Lemma internal_not_negative (hc a b : T) :
  sign_safe T ->
  (hc <? lit0) = false ->
  (fst (_correct_neg_depth_internal hc a b a b) <? lit0) = false /\
  (snd (_correct_neg_depth_internal hc a b a b) <? lit0) = false.
Proof.
  intros [H0' H2'] Hc. pose proof (H2' _ Hc) as H2.
  unfold _correct_neg_depth_internal.
  destruct (a <? lit0) eqn:Ea; [now split |].
  destruct (b <? lit0) eqn:Eb; now split.
Qed.

Lemma edge_not_negative (a : T) :
  sign_safe T -> (_correct_neg_depth_edge a a <? lit0) = false.
Proof.
  intros [H0' _]. unfold _correct_neg_depth_edge.
  now destruct (a <? lit0) eqn:E.
Qed.

Lemma correction_not_negative s d j i :
  sign_safe T ->
  (forall j i, interior_cell s j i -> (H s j i <? lit0) = false) ->
  in_face_range s d j i ->
  (fU (fix_neg_depths_y (fix_neg_depths_x s)) d 0%Z j i <? lit0) = false.
Proof.
  intros Hs HH Hr.
  assert (Hy : ny (fix_neg_depths_x s) = ny s) by reflexivity.
  destruct d; cbn [in_face_range] in Hr; destruct Hr as [Hj Hi].
  - rewrite fix_neg_depths_y_xm.
    destruct (Z.eq_dec i 0) as [-> | Ni].
    + rewrite fix_neg_depths_x_edge_minus. now apply edge_not_negative.
    + replace i with (1 + (i - 1))%Z by lia.
      rewrite fix_neg_depths_x_right by lia.
      apply internal_not_negative; [exact Hs |]. apply HH. split; lia.
  - rewrite fix_neg_depths_y_xp.
    destruct (Z.eq_dec i (nx s)) as [-> | Ni].
    + rewrite fix_neg_depths_x_edge_plus by lia. now apply edge_not_negative.
    + rewrite fix_neg_depths_x_left by lia.
      apply internal_not_negative; [exact Hs |]. apply HH. split; lia.
  - destruct (Z.eq_dec j 0) as [-> | Nj].
    + rewrite fix_neg_depths_y_edge_minus. now apply edge_not_negative.
    + replace j with (1 + (j - 1))%Z by lia.
      rewrite fix_neg_depths_y_right by (rewrite Hy; lia).
      apply internal_not_negative; [exact Hs |].
      rewrite fix_neg_depths_x_H. apply HH. split; lia.
  - destruct (Z.eq_dec j (ny s)) as [-> | Nj].
    + change (ny s) with (ny (fix_neg_depths_x s)).
      rewrite fix_neg_depths_y_edge_plus by (rewrite Hy; lia).
      now apply edge_not_negative.
    + rewrite fix_neg_depths_y_left by (rewrite Hy; lia).
      apply internal_not_negative; [exact Hs |].
      rewrite fix_neg_depths_x_H. apply HH. split; lia.
Qed.

(** The same through the whole call, whatever [tol] holds: the rounding
    fix turns a depth into zero or keeps it. *)
Lemma positivity_through_call states runtime config d j i :
  sign_safe T ->
  (forall j i, interior_cell states j i ->
     (H (fst (reconstruct states runtime config)) j i <? lit0) = false) ->
  in_face_range states d j i ->
  (fU (fst (reconstruct states runtime config)) d 0%Z j i <? lit0) = false.
Proof.
  intros Hs HH Hr. rewrite reconstruct_depth. unfold depths_fixed.
  rewrite fix_rounding_errors_fU. unfold _fix_rounding_err_kernel.
  destruct (_ <? tol runtime); [exact (proj1 Hs) |].
  unfold corrected. apply correction_not_negative; [exact Hs | |].
  - intros j' i' Hc. rewrite uncorrected_H. apply HH.
    unfold interior_cell in *.
    now rewrite (same_inputs_nx (uncorrected_inputs states runtime config)),
      (same_inputs_ny (uncorrected_inputs states runtime config)) in Hc.
  - destruct d; cbn [in_face_range] in *;
      now rewrite (same_inputs_nx (uncorrected_inputs states runtime config)),
        (same_inputs_ny (uncorrected_inputs states runtime config)).
Qed.

End Call.

(** ** The call as a whole, in exact arithmetic *)

Section CallExact.

Import XRFacts.
Local Open Scope Qc_scope.

(** *** Depths that are not negative stay so *)

Lemma double_not_negative (x : xrat) :
  (x <? lit0)%S = false -> (x * lit2 <? lit0)%S = false.
Proof.
  destruct x as [q | | |]; try reflexivity; try discriminate.
  cbn [ltb mul lit0 lit2 xrat_Scalar XR.mul]. intros Hq.
  apply ltb_fin_false in Hq. apply ltb_fin_false. to_Q2. lra.
Qed.

Lemma xrat_sign_safe : sign_safe xrat.
Proof. split; [reflexivity | exact double_not_negative]. Qed.

(** X12.  Where no cell-centre depth is negative, the two correction blocks
    leave no negative depth on any face of the four buffers, the outermost
    faces included, whatever the face depths were before; no tolerance is
    involved. *)
Theorem correction_keeps_depths_not_negative (s : States xrat) d j i :
  (forall j i, interior_cell s j i -> (H s j i <? lit0)%S = false) ->
  in_face_range s d j i ->
  (fU (fix_neg_depths_y (fix_neg_depths_x s)) d 0%Z j i <? lit0)%S = false.
Proof.
  intros HH Hr.
  exact (@correction_not_negative _ _ s d j i xrat_sign_safe HH Hr).
Qed.

(** *** Division by a zero depth *)

(** X15.  Without a positive [drytol] the velocity kernel has no guard against
    a zero depth: a face whose final depth is zero, as the positivity
    correction and the rounding fix produce them, gets two velocities that are
    no numbers. *)
Theorem zero_depth_unguarded (states : States xrat) runtime config d j i :
  let r := fst (reconstruct states runtime config) in
  fU r d 0%Z j i = Fin 0 ->
  XR.ltb (Fin 0) (drytol (params config)) = false ->
  ~ finite (fU r d 1%Z j i) /\ ~ finite (fU r d 2%Z j i).
Proof.
  cbv zeta. intros Eh Hdt.
  destruct (reconstruct_velocity_components states runtime config d j i)
    as [Eu Evv].
  rewrite <- reconstruct_depth in Eu, Evv. rewrite Eh in Eu, Evv.
  unfold _recnstrt_face_vel_kernel in Eu, Evv.
  cbn [ltb xrat_Scalar] in Eu, Evv. rewrite Hdt in Eu, Evv.
  cbn [fst snd] in Eu, Evv. rewrite Eu, Evv.
  assert (Hz : forall x, ~ finite (x / Fin 0)%S).
  { intros x [q Eq]. cbn [div xrat_Scalar] in Eq.
    destruct x as [p | | |]; try discriminate.
    cbn in Eq. unfold XR.signed_inf in Eq.
    destruct (p ?= 0); discriminate. }
  split; apply Hz.
Qed.

End CallExact.

(** ** The call as a whole, on binary64 *)

Section CallBinary64.

Local Open Scope float_scope.

Lemma f64_double_not_negative (x : float) :
  (x <? 0) = false -> (x * 2 <? 0) = false.
Proof.
  rewrite !FloatAxioms.ltb_spec, FloatAxioms.mul_spec.
  change (Prim2SF 0) with (S754_zero false).
  change (Prim2SF 2) with (S754_finite false 4503599627370496 (-51)).
  unfold SF64mul, SFmul.
  destruct (Prim2SF x) as [s | s | | s m e];
    try (destruct s; cbn; congruence); try (cbn; congruence).
  intros Hx.
  destruct (SFltb (binary_round_aux _ _ _ _ _ _) _) eqn:E; [| reflexivity].
  apply round_sign in E. destruct s; cbn in *; congruence.
Qed.

Lemma f64_sign_safe : sign_safe float.
Proof. split; [reflexivity | exact f64_double_not_negative]. Qed.

(** X21.  On binary64, rounding, overflow, infinities and NaN included: if no
    cell-centre depth the call returns compares below zero, then no face depth
    it returns does, on any side and any face in range, whatever [tol] holds
    (negative or NaN included). *)
Theorem f64_positivity_preserved (states : States float) runtime config
  d j i :
  (forall j i, interior_cell states j i ->
     (H (fst (reconstruct states runtime config)) j i <? 0) = false) ->
  in_face_range states d j i ->
  (fU (fst (reconstruct states runtime config)) d 0%Z j i <? 0) = false.
Proof.
  intros HH Hr.
  exact (@positivity_through_call _ _ states runtime config d j i
           f64_sign_safe HH Hr).
Qed.

Lemma f64_div_by_zero (x z : float) (s : bool) :
  Prim2SF z = S754_zero s -> F64.is_number (x / z) = false.
Proof.
  intros Hz. unfold F64.is_number.
  rewrite FloatAxioms.div_spec, Hz. unfold SF64div, SFdiv.
  now destruct (Prim2SF x).
Qed.

(** X22.  On binary64, a face whose final depth is a zero and is not below
    [drytol] (so [drytol] is zero, negative or NaN) gets two velocities that
    are infinities or NaN: the velocity kernel divides by the zero depth. *)
Theorem f64_zero_depth_unguarded (states : States float) runtime config
  d j i (s : bool) :
  let r := fst (reconstruct states runtime config) in
  Prim2SF (fU r d 0%Z j i) = S754_zero s ->
  (fU r d 0%Z j i <? drytol (params config)) = false ->
  F64.is_number (fU r d 1%Z j i) = false /\
  F64.is_number (fU r d 2%Z j i) = false.
Proof.
  cbv zeta. intros Hz Hdry.
  destruct (reconstruct_velocity_components states runtime config d j i)
    as [Eu Ev].
  rewrite <- reconstruct_depth in Eu, Ev.
  unfold _recnstrt_face_vel_kernel in Eu, Ev.
  cbn [ltb div float_Scalar] in Eu, Ev. rewrite Hdry in Eu, Ev.
  cbn [fst snd] in Eu, Ev. rewrite Eu, Ev.
  split; exact (@f64_div_by_zero _ _ _ Hz).
Qed.

(** *** Division by the depth *)

(** A depth that is not below a positive [drytol] is NaN or positive. *)
Lemma not_dry_positive (h dt : float) :
  (0 <? dt) = true -> (h <? dt) = false ->
  PrimFloat.is_nan h = true \/ (0 <? h) = true.
Proof.
  intros Hdt Hh.
  destruct (PrimFloat.is_nan h) eqn:N; [now left | right].
  apply not_nan_spec in N.
  rewrite FloatAxioms.ltb_spec in *. unfold SFltb in *.
  change (Prim2SF 0) with (S754_zero false) in *.
  destruct (Prim2SF h) as [s | s | | s m e],
           (Prim2SF dt) as [s' | s' | | s' m' e'];
    try destruct s; try destruct s'; cbn in *; congruence.
Qed.

(** X14.  On binary64, with [drytol > 0], no face velocity comes from a
    division by a zero or negative depth: a face is either dry, with both
    velocities zero, or its depth is positive or NaN and the velocities are
    the extrapolated momenta divided by it. *)
Theorem f64_division_guarded (states : States float) runtime config d j i :
  (0 <? drytol (params config)) = true ->
  let pre := depths_fixed states runtime config in
  let r := fst (reconstruct states runtime config) in
  ((fU r d 0%Z j i <? drytol (params config)) = true /\
   fU r d 1%Z j i = 0 /\ fU r d 2%Z j i = 0) \/
  ((PrimFloat.is_nan (fU r d 0%Z j i) = true \/ (0 <? fU r d 0%Z j i) = true)
   /\
   fU r d 1%Z j i = fQ pre d 1%Z j i / fU r d 0%Z j i /\
   fU r d 2%Z j i = fQ pre d 2%Z j i / fU r d 0%Z j i).
Proof.
  intros Hdt. cbv zeta.
  destruct (reconstruct_velocity_components states runtime config d j i)
    as [Eu Ev].
  rewrite <- reconstruct_depth in Eu, Ev.
  unfold _recnstrt_face_vel_kernel in Eu, Ev.
  cbn [ltb div lit0 float_Scalar] in Eu, Ev.
  destruct (fU (fst (reconstruct states runtime config)) d 0%Z j i
            <? drytol (params config)) eqn:E; cbn [fst snd] in Eu, Ev.
  - left. split; [reflexivity |]. split; assumption.
  - right. split; [| split; assumption].
    exact (@not_dry_positive _ _ Hdt E).
Qed.

(** *** Dry faces *)

(** A depth that is not negative and is below [drytol] is a number, and its
    product with zero is a zero. *)
Lemma dry_times_zero (h dt : float) :
  (h <? 0) = false -> (h <? dt) = true -> F64.is_zero (h * 0) = true.
Proof.
  unfold F64.is_zero.
  rewrite !FloatAxioms.ltb_spec, FloatAxioms.mul_spec. unfold SFltb.
  change (Prim2SF 0) with (S754_zero false).
  destruct (Prim2SF h) as [s | s | | s m e],
           (Prim2SF dt) as [s' | s' | | s' m' e'];
    try destruct s; try destruct s'; cbn; congruence.
Qed.

Lemma final_depth_not_negative (states : States float) runtime config
  d j i :
  (0 <=? tol runtime) = true ->
  (fU (fst (reconstruct states runtime config)) d 0%Z j i <? 0) = false.
Proof.
  intros Ht. rewrite reconstruct_depth. unfold depths_fixed.
  rewrite fix_rounding_errors_fU. now apply f64_rounding_not_negative.
Qed.

(** X16.  On binary64, with [tol >= 0], a dry face carries no momentum:
    where the final depth is below [drytol], both face velocities are zero
    and both face momenta the call returns are zeros, whatever the
    extrapolated momenta were. *)
Theorem f64_dry_face_no_momentum (states : States float) runtime config
  d j i :
  (0 <=? tol runtime) = true ->
  let r := fst (reconstruct states runtime config) in
  (fU r d 0%Z j i <? drytol (params config)) = true ->
  fU r d 1%Z j i = 0 /\ fU r d 2%Z j i = 0 /\
  F64.is_zero (fQ r d 1%Z j i) = true /\
  F64.is_zero (fQ r d 2%Z j i) = true.
Proof.
  intros Ht. cbv zeta. intros Hdry.
  pose proof (final_depth_not_negative states runtime config d j i Ht)
    as Hpos.
  destruct (reconstruct_velocity_components states runtime config d j i)
    as [Eu Ev].
  rewrite <- reconstruct_depth in Eu, Ev.
  unfold _recnstrt_face_vel_kernel in Eu, Ev.
  cbn [ltb div lit0 float_Scalar] in Eu, Ev. rewrite Hdry in Eu, Ev.
  cbn [fst snd] in Eu, Ev.
  destruct (reconstruct_conservatives states runtime config d j i)
    as (_ & Ehu & Ehv).
  cbn [mul float_Scalar] in Ehu, Ehv.
  rewrite Ehu, Ehv, Eu, Ev.
  split; [reflexivity |]. split; [reflexivity |].
  split; exact (@dry_times_zero _ _ Hpos Hdry).
Qed.

(** *** Water at rest *)

Lemma zeros_add (a b : float) :
  F64.is_zero a = true -> F64.is_zero b = true ->
  F64.is_zero (a + b) = true.
Proof.
  unfold F64.is_zero. rewrite FloatAxioms.add_spec.
  destruct (Prim2SF a) as [s | s | | s m e]; try discriminate.
  destruct (Prim2SF b) as [s' | s' | | s' m' e']; try discriminate.
  now destruct s, s'.
Qed.

Lemma zeros_sub (a b : float) :
  F64.is_zero a = true -> F64.is_zero b = true ->
  F64.is_zero (a - b) = true.
Proof.
  unfold F64.is_zero. rewrite FloatAxioms.sub_spec.
  destruct (Prim2SF a) as [s | s | | s m e]; try discriminate.
  destruct (Prim2SF b) as [s' | s' | | s' m' e']; try discriminate.
  now destruct s, s'.
Qed.

(** A number times a zero, halved, is a zero. *)
Lemma number_times_a_zero (p z : float) :
  F64.is_number p = true -> F64.is_zero z = true ->
  F64.is_zero (p * z / 2) = true.
Proof.
  unfold F64.is_number, F64.is_zero.
  rewrite FloatAxioms.div_spec, FloatAxioms.mul_spec.
  change (Prim2SF 2) with (S754_finite false 4503599627370496 (-51)).
  destruct (Prim2SF p) as [s | s | | s m e]; try discriminate;
    destruct (Prim2SF z) as [s' | s' | | s' m' e']; try discriminate;
    reflexivity.
Qed.

(** Between two zeros the limited slope is a zero, whatever the upstream
    value. *)
Lemma slope_of_zeros (s1 s2 s3 th : float) :
  F64.is_zero s2 = true -> F64.is_zero s3 = true ->
  F64.is_number th = true ->
  F64.is_zero (_minmod_slope_kernel s1 s2 s3 th) = true.
Proof.
  intros H2 H3 Hth. unfold _minmod_slope_kernel.
  cbn [sub add mul div fmin fmax lit0 lit1 lit2 float_Scalar].
  apply number_times_a_zero; [now apply limiter_is_number |].
  now apply zeros_sub.
Qed.

(** Where a component of [Q] holds zeros, so do its face values. *)
Lemma zero_face_values (s : States float) th d k j i :
  (2 <= ngh s)%Z ->
  (forall j i, (0 <= j < snd (fst (Q_shape s)))%Z ->
     (0 <= i < snd (Q_shape s))%Z -> F64.is_zero (Q s k j i) = true) ->
  F64.is_number th = true ->
  in_face_range s d j i ->
  F64.is_zero (fQ (get_face_conservatives th s) d k j i) = true.
Proof.
  intros Hg HQ Hth Hr.
  destruct d; cbn [in_face_range] in Hr; unfold ny, nx in Hr;
    [ rewrite get_face_conservatives_xm; apply zeros_add
    | rewrite get_face_conservatives_xp; apply zeros_sub
    | rewrite get_face_conservatives_ym; apply zeros_add
    | rewrite get_face_conservatives_yp; apply zeros_sub ];
    try (unfold slpx, slpy, view3, view;
         apply slope_of_zeros; [| | exact Hth]);
    apply HQ; unfold xbg, ybg; lia.
Qed.

(** The velocity kernel and the recombination at a face whose two momenta
    are zeros and whose depth is a number. *)
Lemma still_face (h p q dt : float) :
  (0 <? dt) = true -> F64.is_number h = true ->
  F64.is_zero p = true -> F64.is_zero q = true ->
  let uv := _recnstrt_face_vel_kernel h p q dt in
  F64.is_zero (fst uv) = true /\ F64.is_zero (snd uv) = true /\
  F64.is_zero (h * fst uv) = true /\ F64.is_zero (h * snd uv) = true.
Proof.
  intros Hdt Hh Hp Hq. cbv zeta. unfold _recnstrt_face_vel_kernel.
  cbn [ltb div lit0 float_Scalar].
  destruct (h <? dt) eqn:E; cbn [fst snd].
  - assert (Z0 : F64.is_zero (h * 0) = true).
    { unfold F64.is_zero, F64.is_number in *.
      rewrite FloatAxioms.mul_spec.
      change (Prim2SF 0) with (S754_zero false).
      destruct (Prim2SF h) as [s | s | | s m e]; try discriminate;
        reflexivity. }
    split; [reflexivity |]. split; [reflexivity |].
    split; exact Z0.
  - destruct (@not_dry_positive _ _ Hdt E) as [N | Hpos].
    + apply nan_spec in N. unfold F64.is_number in Hh.
      rewrite N in Hh. discriminate.
    + assert (Zd : forall x, F64.is_zero x = true ->
                F64.is_zero (x / h) = true /\
                F64.is_zero (h * (x / h)) = true).
      { intros x Hx. unfold F64.is_zero, F64.is_number in *.
        rewrite FloatAxioms.mul_spec, !FloatAxioms.div_spec.
        rewrite FloatAxioms.ltb_spec in Hpos. unfold SFltb in Hpos.
        change (Prim2SF 0) with (S754_zero false) in Hpos.
        destruct (Prim2SF h) as [s | s | | s m e]; try discriminate;
          destruct (Prim2SF x) as [s' | s' | | s' m' e']; try discriminate;
          try destruct s; cbn in *; try discriminate; split; reflexivity. }
      destruct (Zd p Hp) as [A B]. destruct (Zd q Hq) as [C D].
      split; [exact A |]. split; [exact C |]. split; [exact B | exact D].
Qed.

(** X18.  On binary64, water at rest stays at rest: with at least two ghost
    cells, both momentum components of [Q] zeros in every cell, [theta] a
    number and [drytol > 0], every face in range whose final depth is a
    number gets two velocities and two momenta that are zeros. *)
Theorem f64_rest_stays_at_rest (states : States float) runtime config
  d j i :
  (2 <= ngh states)%Z ->
  (forall k j i, (1 <= k <= 2)%Z ->
     (0 <= j < snd (fst (Q_shape states)))%Z ->
     (0 <= i < snd (Q_shape states))%Z ->
     F64.is_zero (Q states k j i) = true) ->
  F64.is_number (theta (params config)) = true ->
  (0 <? drytol (params config)) = true ->
  in_face_range states d j i ->
  let r := fst (reconstruct states runtime config) in
  F64.is_number (fU r d 0%Z j i) = true ->
  F64.is_zero (fU r d 1%Z j i) = true /\
  F64.is_zero (fU r d 2%Z j i) = true /\
  F64.is_zero (fQ r d 1%Z j i) = true /\
  F64.is_zero (fQ r d 2%Z j i) = true.
Proof.
  intros Hg HQ Hth Hdt Hr. cbv zeta. intros Hh.
  destruct (reconstruct_velocity_components states runtime config d j i)
    as [Eu Ev].
  rewrite <- reconstruct_depth in Eu, Ev.
  destruct (reconstruct_conservatives states runtime config d j i)
    as (_ & Ehu & Ehv).
  cbn [mul float_Scalar] in Ehu, Ehv.
  rewrite Ehu, Ehv, Eu, Ev. rewrite depths_fixed_fQ.
  apply still_face; [exact Hdt | exact Hh | |];
    apply zero_face_values; try assumption; intros; apply HQ; lia.
Qed.

End CallBinary64.

(** ** These properties on the sample inputs *)

Section MoreSamples.

Local Open Scope Qc_scope.

Lemma correction_keeps_depths_not_negative_witness :
  (fU (fix_neg_depths_y (fix_neg_depths_x still_water_uncorrected))
      xp 0%Z 0%Z 0%Z <? lit0)%S = false.
Proof.
  refine (@correction_keeps_depths_not_negative still_water_uncorrected
            xp 0 0 _ _).
  - intros j i _. vm_compute. reflexivity.
  - unfold in_face_range. vm_compute. intuition congruence.
Defined.

Lemma zero_depth_unguarded_witness :
  let r := fst (reconstruct shoreline flat_bed no_dry_guard) in
  ~ finite (fU r xm 1%Z 0%Z 4%Z) /\ ~ finite (fU r xm 2%Z 0%Z 4%Z).
Proof.
  refine (@zero_depth_unguarded shoreline flat_bed no_dry_guard xm 0 4 _ _).
  - xrat_compute.
  - vm_compute. reflexivity.
Defined.

Lemma reconstruct_ignores_stale_buffers_witness :
  let r := fst (reconstruct shoreline flat_bed shoreline_config) in
  let r' := fst (reconstruct stale_shoreline flat_bed shoreline_config) in
  H r' 0%Z 4%Z = H r 0%Z 4%Z /\ fU r' xm 1%Z 0%Z 4%Z = fU r xm 1%Z 0%Z 4%Z.
Proof.
  cbv zeta.
  destruct (@reconstruct_ignores_stale_buffers xrat _ shoreline
              stale_shoreline flat_bed shoreline_config
              eq_refl eq_refl eq_refl) as [HH HU].
  split; [exact (HH 0%Z 4%Z) |].
  refine (proj1 (HU xm 1%Z 0%Z 4%Z _)). lia.
Defined.

Lemma f64_slope_zero_denominator_witness :
  exists sgn,
    Prim2SF (_minmod_slope_kernel 3%float 2%float 2%float 1.25%float) =
    S754_zero sgn.
Proof.
  apply (@f64_slope_zero_denominator 3%float 2%float 1.25%float);
    reflexivity.
Defined.

Lemma f64_face_depths_not_negative_witness :
  (fU (fst (reconstruct f64_shoreline f64_flat_bed f64_shoreline_config))
      xm 0%Z 0%Z 5%Z <? 0)%float = false.
Proof.
  refine (@f64_face_depths_not_negative f64_shoreline f64_flat_bed
            f64_shoreline_config xm 0 5 _).
  reflexivity.
Defined.

Lemma f64_positivity_preserved_witness :
  (fU (fst (reconstruct f64_still_water f64_raised_faces
              f64_shoreline_config)) xp 0%Z 0%Z 0%Z <? 0)%float = false.
Proof.
  refine (@f64_positivity_preserved f64_still_water f64_raised_faces
            f64_shoreline_config xp 0 0 _ _).
  - intros j i _. vm_compute. reflexivity.
  - unfold in_face_range. vm_compute. intuition congruence.
Defined.

Lemma f64_zero_depth_unguarded_witness :
  let r := fst (reconstruct f64_shoreline f64_flat_bed f64_no_dry_guard) in
  F64.is_number (fU r xm 1%Z 0%Z 4%Z) = false /\
  F64.is_number (fU r xm 2%Z 0%Z 4%Z) = false.
Proof.
  refine (@f64_zero_depth_unguarded f64_shoreline f64_flat_bed
            f64_no_dry_guard xm 0 4 false _ _).
  - vm_compute. reflexivity.
  - vm_compute. reflexivity.
Defined.

Lemma fired_pair_after_call_witness :
  let u := uncorrected f64_shoreline f64_flat_bed f64_shoreline_config in
  let r := fst (reconstruct f64_shoreline f64_flat_bed f64_shoreline_config)
  in
  let kept :=
    (if H r 0%Z 3%Z * lit2 <? tol f64_flat_bed then lit0
     else H r 0%Z 3%Z * lit2)%S in
  hl r dir_x 0%Z 3%Z =
    (if hl u dir_x 0%Z 3%Z <? lit0 then lit0 else kept)%S /\
  hr r dir_x 0%Z 3%Z =
    (if hl u dir_x 0%Z 3%Z <? lit0 then kept else lit0)%S.
Proof.
  refine (@fired_pair_after_call float _ f64_shoreline f64_flat_bed
            f64_shoreline_config dir_x 0 3 _ _).
  - unfold interior_cell. vm_compute. intuition congruence.
  - vm_compute. reflexivity.
Defined.

Lemma f64_division_guarded_witness :
  let pre := depths_fixed f64_shoreline f64_flat_bed f64_shoreline_config in
  let r := fst (reconstruct f64_shoreline f64_flat_bed f64_shoreline_config)
  in
  ((fU r xm 0%Z 0%Z 4%Z <? drytol (params f64_shoreline_config))%float
     = true /\
   fU r xm 1%Z 0%Z 4%Z = 0%float /\ fU r xm 2%Z 0%Z 4%Z = 0%float) \/
  ((PrimFloat.is_nan (fU r xm 0%Z 0%Z 4%Z) = true \/
    (0 <? fU r xm 0%Z 0%Z 4%Z)%float = true) /\
   fU r xm 1%Z 0%Z 4%Z
     = (fQ pre xm 1%Z 0%Z 4%Z / fU r xm 0%Z 0%Z 4%Z)%float /\
   fU r xm 2%Z 0%Z 4%Z
     = (fQ pre xm 2%Z 0%Z 4%Z / fU r xm 0%Z 0%Z 4%Z)%float).
Proof.
  refine (@f64_division_guarded f64_shoreline f64_flat_bed
            f64_shoreline_config xm 0 4 _).
  reflexivity.
Defined.

Lemma f64_dry_face_no_momentum_witness :
  let r := fst (reconstruct f64_shoreline f64_flat_bed f64_shoreline_config)
  in
  fU r xm 1%Z 0%Z 4%Z = 0%float /\ fU r xm 2%Z 0%Z 4%Z = 0%float /\
  F64.is_zero (fQ r xm 1%Z 0%Z 4%Z) = true /\
  F64.is_zero (fQ r xm 2%Z 0%Z 4%Z) = true.
Proof.
  refine (@f64_dry_face_no_momentum f64_shoreline f64_flat_bed
            f64_shoreline_config xm 0 4 _ _).
  - reflexivity.
  - vm_compute. reflexivity.
Defined.

Lemma f64_rest_stays_at_rest_witness :
  let r := fst (reconstruct f64_still_water f64_raised_faces
                  f64_shoreline_config) in
  F64.is_zero (fU r xp 1%Z 0%Z 0%Z) = true /\
  F64.is_zero (fU r xp 2%Z 0%Z 0%Z) = true /\
  F64.is_zero (fQ r xp 1%Z 0%Z 0%Z) = true /\
  F64.is_zero (fQ r xp 2%Z 0%Z 0%Z) = true.
Proof.
  refine (@f64_rest_stays_at_rest f64_still_water f64_raised_faces
            f64_shoreline_config xp 0 0 _ _ _ _ _ _).
  - vm_compute. discriminate.
  - intros k j i _ _ _. reflexivity.
  - reflexivity.
  - reflexivity.
  - unfold in_face_range. vm_compute. intuition congruence.
  - vm_compute. reflexivity.
Defined.

End MoreSamples.
